(** * Conversation synchronisation core: identity resolver, message store,
      conversation metadata updater and fan-out broker.

    Shallow embedding of
      - server/services/messageService.js   (getMessagesByConversationId, createMessage)
      - controllers/messageController.js    (createMessage, getMessagesByConversationId)
      - models/Conversation.js, models/Message.js (schemas)
      - server/socket/chatHandlers.js       (Message change-stream handler)
      - dashbaord/src/utils/helpers.js      (generateEmployeeId,
                                             getSenderIdFromParticipantName)

    JavaScript strings are sequences of UTF-16 code units; [length],
    [substring] and the regular expressions of the source all work on code
    units, so a string is a [list N] here. *)

From Stdlib Require Import String Ascii DecimalString.
From Stdlib Require Import List NArith ZArith Lia Bool Sorting.Sorted Permutation.
Import ListNotations.

Set Implicit Arguments.

(* ===================================================================== *)
(** * Part I. Definitions                                                 *)
(* ===================================================================== *)

(** ** JavaScript string primitives used by the sources *)
Module JsString.

Definition jstring := list N.

(** A literal of the source made of Basic Latin characters. *)
Definition lit (s : string) : jstring :=
  map N_of_ascii (list_ascii_of_string s).

(** [s === t] on strings. *)
Fixpoint jeqb (s t : jstring) : bool :=
  match s, t with
  | [], [] => true
  | a :: s', b :: t' => N.eqb a b && jeqb s' t'
  | _, _ => false
  end.

(** Truthiness of a string: [!s] holds exactly for the empty string. *)
Definition nonEmpty (s : jstring) : bool :=
  match s with [] => false | _ :: _ => true end.

(** WhiteSpace and LineTerminator code units of ECMAScript: the set that
    [String.prototype.trim] strips and that [\s] matches. *)
Definition isWhiteSpace (c : N) : bool :=
  ((9 <=? c) && (c <=? 13) || (c =? 32) || (c =? 160) || (c =? 5760)
   || (8192 <=? c) && (c <=? 8202)
   || (c =? 8232) || (c =? 8233) || (c =? 8239) || (c =? 8287)
   || (c =? 12288) || (c =? 65279))%N.

Fixpoint trimStart (s : jstring) : jstring :=
  match s with
  | [] => []
  | c :: r => if isWhiteSpace c then trimStart r else s
  end.

Definition trimEnd (s : jstring) : jstring := rev (trimStart (rev s)).

(** [s.trim()] *)
Definition trim (s : jstring) : jstring := trimEnd (trimStart s).

(** Lower-casing of one code unit.  Outside Basic Latin, only U+0130 and
    U+212A have a lower-case form that contains a Basic Latin letter; every
    other code unit outside Basic Latin lower-cases to code units outside
    Basic Latin that are no white space.  The sources only ever strip such
    units ([^a-z0-9_]) or compare the result with Basic Latin text, so they
    are kept as they are. *)
Definition lowerUnit (c : N) : jstring :=
  if ((65 <=? c) && (c <=? 90))%N then [(c + 32)%N]
  else if (c =? 304)%N then [105%N; 775%N]
  else if (c =? 8490)%N then [107%N]
  else [c].

(** [s.toLowerCase()] *)
Definition toLowerCase (s : jstring) : jstring := flat_map lowerUnit s.

(** [s.replace(/\s+/g, '_')]: every maximal run of white space becomes one
    underscore.  [inRun] tells that the previous unit was white space. *)
Fixpoint collapseWs (inRun : bool) (s : jstring) : jstring :=
  match s with
  | [] => []
  | c :: r =>
      if isWhiteSpace c
      then (if inRun then collapseWs true r else 95%N :: collapseWs true r)
      else c :: collapseWs false r
  end.

Definition replaceWhitespaceRuns (s : jstring) : jstring := collapseWs false s.

(** The class [a-z0-9_]. *)
Definition isSlugUnit (c : N) : bool :=
  ((97 <=? c) && (c <=? 122) || (48 <=? c) && (c <=? 57) || (c =? 95))%N.

(** [s.replace(/[^a-z0-9_]/g, '')] *)
Definition stripNonSlug (s : jstring) : jstring := filter isSlugUnit s.

Fixpoint startsWith (p s : jstring) : bool :=
  match p, s with
  | [], _ => true
  | _ :: _, [] => false
  | a :: p', b :: s' => N.eqb a b && startsWith p' s'
  end.

(** [s.includes(needle)] *)
Fixpoint includes (s needle : jstring) : bool :=
  startsWith needle s
  || match s with
     | [] => false
     | _ :: r => includes r needle
     end.

(** [s.substring(0, n)] *)
Definition substring0 (n : nat) (s : jstring) : jstring := firstn n s.

(** Number-to-string conversion of a non-negative integer, as a template
    literal does it. *)
Definition decimal (n : nat) : jstring :=
  lit (NilEmpty.string_of_uint (Nat.to_uint n)).

(** [/^[0-9a-fA-F]{24}$/] *)
Definition isHexUnit (c : N) : bool :=
  ((48 <=? c) && (c <=? 57) || (65 <=? c) && (c <=? 70)
   || (97 <=? c) && (c <=? 102))%N.

Definition looksLikeObjectId (s : jstring) : bool :=
  Nat.eqb (length s) 24 && forallb isHexUnit s.

End JsString.
Import JsString.

(** ** Identity resolver *)
Module Identity.

(** The test both sources apply to a name to recognise the HR party:
    [name.includes('(HR)') || name.toLowerCase().includes('sarah connor')]. *)
Definition isHRName (name : jstring) : bool :=
  includes name (lit "(HR)")
  || includes (toLowerCase name) (lit "sarah connor").

Definition HR_SENDER_ID : jstring := lit "hr_sconnor".

(** The chain
    [name.toLowerCase().trim().replace(/\s+/g,'_').replace(/[^a-z0-9_]/g,'')]. *)
Definition slug (name : jstring) : jstring :=
  stripNonSlug (replaceWhitespaceRuns (trim (toLowerCase name))).

(** helpers.js, generateEmployeeId *)
Definition generateEmployeeId (employeeName : jstring) : jstring :=
  if negb (nonEmpty employeeName) then []
  else lit "emp_" ++ slug employeeName.

(** helpers.js, getSenderIdFromParticipantName, on a string argument. *)
Definition getSenderIdFromParticipantName (participantName : jstring) : jstring :=
  if negb (nonEmpty participantName) then []
  else if isHRName participantName then HR_SENDER_ID
  else generateEmployeeId participantName.

(** The function is untyped in the source: the values a caller can pass. *)
Inductive jsval : Type :=
| VUndefined
| VNull
| VBool (b : bool)
| VNumber (z : Z)
| VString (s : jstring).

Definition truthy (v : jsval) : bool :=
  match v with
  | VUndefined | VNull => false
  | VBool b => b
  | VNumber z => negb (Z.eqb z 0)
  | VString s => nonEmpty s
  end.

Inductive outcome (A : Type) : Type :=
| Returns (a : A)
| ThrowsTypeError.
Arguments ThrowsTypeError {A}.

(** The call did not produce a value. *)
Definition throws {A : Type} (o : outcome A) : Prop :=
  match o with
  | Returns _ => False
  | ThrowsTypeError => True
  end.

(** getSenderIdFromParticipantName on an arbitrary value: the guard
    [if (!participantName) return ''] comes first; a truthy value that is no
    string has no [includes] method, and the call throws. *)
Definition getSenderIdFromParticipantNameOf (v : jsval) : outcome jstring :=
  if negb (truthy v) then Returns []
  else match v with
       | VString s => Returns (getSenderIdFromParticipantName s)
       | _ => ThrowsTypeError
       end.

(** messageService.js, validateSenderId (the closure inside createMessage). *)
Definition validateSenderId (senderId : jstring) (participantNames : list jstring) : bool :=
  if Nat.ltb (length participantNames) 2 then false
  else
    let hrName := nth 0 participantNames [] in
    if nonEmpty hrName && isHRName hrName && jeqb senderId HR_SENDER_ID then true
    else
      let empName := nth 1 participantNames [] in
      if nonEmpty empName && jeqb senderId (lit "emp_" ++ slug empName) then true
      else false.

End Identity.
Import Identity.


(** ** Documents and collections (models/Conversation.js, models/Message.js)

    A collection is the list of its documents in insertion order.  Filters
    and updates are cast to the schema before they reach the collection:
    a string path declared with [trim: true] has its value trimmed, in a
    filter ([findOne({ employeeId })]) as in an update
    ([$set: { lastMessage }]); an [_id] is cast to an ObjectId. *)
Module Store.

(** An attachment as it arrives in a request body.  [url], [type] and [name]
    are the empty string when the field is missing or empty (both are falsy
    for the controller); [size] and [publicId] may be absent. *)
Record AttachmentInput : Type := mkAttachmentInput {
  in_url : jstring;
  in_type : jstring;
  in_name : jstring;
  in_size : option N;
  in_publicId : option jstring
}.

(** The attachment sub-document of messageSchema. *)
Record Attachment : Type := mkAttachment {
  att_url : jstring;
  att_type : jstring;
  att_name : jstring;
  att_size : N;
  att_publicId : option jstring
}.

(** Casting a request attachment to the sub-document schema:
    [size: { default: 0 }], [publicId: { default: null }]. *)
Definition castAttachment (a : AttachmentInput) : Attachment :=
  {| att_url := in_url a;
     att_type := in_type a;
     att_name := in_name a;
     att_size := match in_size a with Some n => n | None => 0%N end;
     att_publicId := in_publicId a |}.

(** conversationSchema.  [c_id] is the document's [_id] in its canonical
    24-digit lower-case hexadecimal form; [lastMessageTimestamp] is [None]
    when the field is absent or null; time stamps are milliseconds. *)
Record Conversation : Type := mkConversation {
  c_id : jstring;
  employeeId : jstring;
  employeeName : jstring;
  participantNames : list jstring;
  lastMessage : jstring;
  lastMessageTimestamp : option Z
}.

(** messageSchema.  [conversationId] holds the owning conversation's [_id]. *)
Record Message : Type := mkMessage {
  m_id : N;
  conversationId : jstring;
  senderId : jstring;
  text : jstring;
  attachments : list Attachment;
  timestamp : Z
}.

(** The two collections. *)
Record Db : Type := mkDb {
  conversations : list Conversation;
  messages : list Message
}.

(** [Conversation.findOne({ employeeId: key })]: [employeeId] carries
    [trim: true], so the documents are compared with the trimmed key. *)
Definition findOneByEmployeeId (db : Db) (key : jstring) : option Conversation :=
  find (fun c => jeqb (employeeId c) (trim key)) (conversations db).

(** The document of the collection with a given [_id]. *)
Definition lookupId (db : Db) (id : jstring) : option Conversation :=
  find (fun c => jeqb (c_id c) id) (conversations db).

(** [Conversation.findById(id)]: the text is cast to an ObjectId, so the
    case of its hexadecimal digits does not matter. *)
Definition findById (db : Db) (id : jstring) : option Conversation :=
  lookupId db (toLowerCase id).

(** The lookup that getMessagesByConversationId, createMessage and the
    socket handlers each spell out: by [employeeId] first, and by [_id] only
    when that found nothing and the text looks like an ObjectId. *)
Definition resolveConversation (db : Db) (conversationIdOrEmployeeId : jstring)
  : option Conversation :=
  match findOneByEmployeeId db conversationIdOrEmployeeId with
  | Some conversation => Some conversation
  | None =>
      if looksLikeObjectId conversationIdOrEmployeeId
      then findById db conversationIdOrEmployeeId
      else None
  end.

(** [.sort({ timestamp: 1 })], as a stable insertion sort. *)
Fixpoint insertByTimestamp (m : Message) (l : list Message) : list Message :=
  match l with
  | [] => [m]
  | x :: r =>
      if (timestamp m <=? timestamp x)%Z then m :: l
      else x :: insertByTimestamp m r
  end.

Fixpoint sortByTimestamp (l : list Message) : list Message :=
  match l with
  | [] => []
  | m :: r => insertByTimestamp m (sortByTimestamp r)
  end.

(** Ascending order of time stamp. *)
Definition byTimestamp (a b : Message) : Prop := (timestamp a <= timestamp b)%Z.

(** [Message.find({ conversationId: id })] *)
Definition findMessagesOf (db : Db) (id : jstring) : list Message :=
  filter (fun m => jeqb (conversationId m) id) (messages db).

(** [new Message({ conversationId, senderId, text, attachments, timestamp })]:
    the document is cast to messageSchema, whose [senderId] and [text] carry
    [trim: true]. *)
Definition newMessage (id : N) (conversationId senderId text : jstring)
  (attachments : list AttachmentInput) (timestamp : Z) : Message :=
  {| m_id := id;
     conversationId := conversationId;
     senderId := trim senderId;
     text := trim text;
     attachments := map castAttachment attachments;
     timestamp := timestamp |}.

(** The validators of messageSchema that [save] runs: [senderId] required,
    [text] of at most 1000 code units, every attachment with [url], [type]
    and [name], and [type] one of 'image' and 'file'. *)
Definition validAttachment (a : Attachment) : bool :=
  nonEmpty (att_url a) && nonEmpty (att_name a)
  && (jeqb (att_type a) (lit "image") || jeqb (att_type a) (lit "file")).

Definition validMessage (m : Message) : bool :=
  nonEmpty (senderId m) && Nat.leb (length (text m)) 1000
  && forallb validAttachment (attachments m).

(** [newMessage.save()]: the document is appended when it validates, and the
    call throws otherwise. *)
Definition save (db : Db) (m : Message) : option Db :=
  if validMessage m
  then Some {| conversations := conversations db; messages := messages db ++ [m] |}
  else None.

(** The filter of the conditional update in createMessage:
    [$or: [{ $exists: false }, null, { $lt: ts }]] on lastMessageTimestamp. *)
Definition olderThan (c : Conversation) (ts : Z) : bool :=
  match lastMessageTimestamp c with
  | None => true
  | Some t => (t <? ts)%Z
  end.

(** [$set: { lastMessage: preview, lastMessageTimestamp: ts }] on one
    document: [lastMessage] carries [trim: true], so the preview is stored
    trimmed. *)
Definition setLastMessage (preview : jstring) (ts : Z) (c : Conversation) : Conversation :=
  {| c_id := c_id c;
     employeeId := employeeId c;
     employeeName := employeeName c;
     participantNames := participantNames c;
     lastMessage := trim preview;
     lastMessageTimestamp := Some ts |}.

(** findOneAndUpdate on a collection: the first document that matches the
    whole filter is updated, the others are left alone. *)
Fixpoint updateFirst (p : Conversation -> bool) (f : Conversation -> Conversation)
  (l : list Conversation) : list Conversation :=
  match l with
  | [] => []
  | c :: r => if p c then f c :: r else c :: updateFirst p f r
  end.

(** The conditional update as one document sees it. *)
Definition updatedBy (id preview : jstring) (ts : Z) (c : Conversation) : Conversation :=
  if jeqb (c_id c) id && olderThan c ts then setLastMessage preview ts c else c.

(** The [Conversation.findOneAndUpdate] call of createMessage. *)
Definition updateLastMessage (db : Db) (id : jstring) (preview : jstring) (ts : Z) : Db :=
  {| conversations :=
       updateFirst (fun c => jeqb (c_id c) id && olderThan c ts)
                   (setLastMessage preview ts) (conversations db);
     messages := messages db |}.

End Store.
Import Store.

(** ** messageService.js *)
Module MessageService.

Inductive AppendError : Type :=
| MissingFields
| EmptyMessage
| MessageTooLong
| InvalidAttachmentFormat
| InvalidAttachmentType
| ConversationNotFound
| InvalidSender
| ValidationFailed.

Inductive result (A : Type) : Type :=
| Ok (a : A)
| Err (e : AppendError).
Arguments Err {A}.

(** U+1F4F7 and U+1F4C4, each a surrogate pair. *)
Definition CAMERA : jstring := [55357%N; 56567%N].
Definition PAGE : jstring := [55357%N; 56516%N].

(** getMessagesByConversationId *)
Definition getMessagesByConversationId (db : Db) (conversationIdOrEmployeeId : jstring)
  : result (list Message) :=
  match resolveConversation db conversationIdOrEmployeeId with
  | None => Err ConversationNotFound
  | Some conversation => Ok (sortByTimestamp (findMessagesOf db (c_id conversation)))
  end.

(** createMessage, "Build last message preview": the value of [lastMessage]
    before it is cut to 100 code units. *)
Definition buildLastMessage (text : jstring) (attachments : list AttachmentInput) : jstring :=
  let lastMessage := trim text in
  match attachments with
  | [] => lastMessage
  | attachmentInfo :: _ =>
      let lastMessage :=
        if jeqb (in_type attachmentInfo) (lit "image") then
          if nonEmpty lastMessage
          then lastMessage ++ lit " " ++ CAMERA ++ lit " " ++ in_name attachmentInfo
          else CAMERA ++ lit " " ++ in_name attachmentInfo
        else
          if nonEmpty lastMessage
          then lastMessage ++ lit " " ++ PAGE ++ lit " " ++ in_name attachmentInfo
          else PAGE ++ lit " " ++ in_name attachmentInfo in
      if Nat.ltb 1 (length attachments)
      then lastMessage ++ lit " (+" ++ decimal (length attachments - 1) ++ lit ")"
      else lastMessage
  end.

(** createMessage of the service.  [now] is the reading of [new Date()] and
    [newId] the [_id] the store gives the new document. *)
Definition createMessage (db : Db) (conversationId senderId text : jstring)
  (attachments : list AttachmentInput) (now : Z) (newId : N)
  : result Message * Db :=
  match resolveConversation db conversationId with
  | None => (Err ConversationNotFound, db)
  | Some conversation =>
      if negb (validateSenderId senderId (participantNames conversation))
      then (Err InvalidSender, db)
      else
        let lastMessage := buildLastMessage text attachments in
        let newMessage :=
          newMessage newId (c_id conversation) senderId (trim text) attachments now in
        match save db newMessage with
        | None => (Err ValidationFailed, db)
        | Some db1 =>
            let savedMessage := newMessage in
            (Ok savedMessage,
             updateLastMessage db1 (c_id conversation)
               (substring0 100 lastMessage) (timestamp savedMessage))
        end
  end.

End MessageService.
Import MessageService.

(** ** controllers/messageController.js *)
Module MessageController.

(** The body of a POST request.  [conversationId] and [senderId] are the
    empty string when missing; [text] and [attachments] may be absent. *)
Record Body : Type := mkBody {
  b_conversationId : jstring;
  b_senderId : jstring;
  b_text : option jstring;
  b_attachments : option (list AttachmentInput)
}.

(** [text && typeof text === 'string' && text.trim().length > 0] *)
Definition hasText (text : option jstring) : bool :=
  match text with
  | Some t => nonEmpty t && Nat.ltb 0 (length (trim t))
  | None => false
  end.

(** [attachments && Array.isArray(attachments) && attachments.length > 0] *)
Definition hasAttachments (attachments : option (list AttachmentInput)) : bool :=
  match attachments with
  | Some l => Nat.ltb 0 (length l)
  | None => false
  end.

(** The checks made on one attachment, in the order of the loop body. *)
Definition checkAttachment (attachment : AttachmentInput) : option AppendError :=
  if negb (nonEmpty (in_url attachment)) || negb (nonEmpty (in_type attachment))
     || negb (nonEmpty (in_name attachment))
  then Some InvalidAttachmentFormat
  else if negb (jeqb (in_type attachment) (lit "image")
                || jeqb (in_type attachment) (lit "file"))
  then Some InvalidAttachmentType
  else None.

(** [for (const attachment of attachments)]: the first failure returns. *)
Fixpoint checkAttachments (l : list AttachmentInput) : option AppendError :=
  match l with
  | [] => None
  | attachment :: r =>
      match checkAttachment attachment with
      | Some e => Some e
      | None => checkAttachments r
      end
  end.

Definition orEmpty (text : option jstring) : jstring :=
  match text with Some t => t | None => [] end.

Definition orNil (attachments : option (list AttachmentInput)) : list AttachmentInput :=
  match attachments with Some l => l | None => [] end.

(** createMessage of the controller: the request checks, then the service. *)
Definition createMessage (db : Db) (body : Body) (now : Z) (newId : N)
  : result Message * Db :=
  if negb (nonEmpty (b_conversationId body)) || negb (nonEmpty (b_senderId body))
  then (Err MissingFields, db)
  else if negb (hasText (b_text body)) && negb (hasAttachments (b_attachments body))
  then (Err EmptyMessage, db)
  else if match b_text body with
          | Some t => nonEmpty t && Nat.ltb 1000 (length (trim t))
          | None => false
          end
  then (Err MessageTooLong, db)
  else
    match checkAttachments (orNil (b_attachments body)) with
    | Some e => (Err e, db)
    | None =>
        MessageService.createMessage db (b_conversationId body) (b_senderId body)
          (orEmpty (b_text body)) (orNil (b_attachments body)) now newId
    end.

(** The status code of the response: 400 for the controller's own checks,
    500 for an error thrown by the service. *)
Definition statusOf (r : result Message) : nat :=
  match r with
  | Ok _ => 201
  | Err ConversationNotFound | Err InvalidSender | Err ValidationFailed => 500
  | Err _ => 400
  end.

(** getMessagesByConversationId of the controller. *)
Definition getMessagesByConversationId (db : Db) (conversationId : jstring)
  : result (list Message) :=
  MessageService.getMessagesByConversationId db conversationId.

End MessageController.

(** ** socket/chatHandlers.js: the handler of the Message change stream *)
Module ChatHandlers.

Inductive OperationType : Type := OpInsert | OpUpdate | OpReplace | OpDelete.

Record Change : Type := mkChange {
  operationType : OperationType;
  documentKey : N
}.

Inductive Payload : Type :=
| MessagePayload (m : Message) (populated : Conversation)
| ConversationPayload (c : Conversation).

Inductive Effect : Type :=
| Emit (room : jstring) (event : jstring) (payload : Payload)
| ConsoleLog (line : jstring)
| ConsoleError (line : jstring).

(** [Message.findById(documentKey._id)] *)
Definition findMessageById (db : Db) (id : N) : option Message :=
  find (fun m => N.eqb (m_id m) id) (messages db).

(** [.populate('conversationId')]: the referenced document, or null when it
    is gone. *)
Definition populate (db : Db) (m : Message) : option Conversation :=
  find (fun c => jeqb (c_id c) (conversationId m)) (conversations db).

(** A line was written to the console. *)
Definition logged (effects : list Effect) : bool :=
  existsb (fun e => match e with Emit _ _ _ => false | _ => true end) effects.

(** The 'change' listener.  [rejected] tells that the query promise was
    rejected, which runs the [.catch] branch. *)
Definition onMessageChange (db : Db) (rejected : bool) (change : Change) : list Effect :=
  match operationType change with
  | OpInsert =>
      if rejected then [ConsoleError (lit "Error fetching message:")]
      else
        match findMessageById db (documentKey change) with
        | Some message =>
            match populate db message with
            | Some conversation =>
                [ Emit (lit "conversation:" ++ c_id conversation) (lit "message:new")
                       (MessagePayload message conversation);
                  Emit (lit "conversations") (lit "conversation:updated")
                       (ConversationPayload conversation);
                  ConsoleLog ([55357%N; 56546%N] ++ lit " Emitted message:new event") ]
            | None => []
            end
        | None => []
        end
  | _ => []
  end.

End ChatHandlers.

(** ** What the schemas and the store guarantee of a database *)
Module Invariants.

Definition isLowerHexUnit (c : N) : bool :=
  ((48 <=? c) && (c <=? 57) || (97 <=? c) && (c <=? 102))%N.

(** The text form of an ObjectId: 24 lower-case hexadecimal digits. *)
Definition isObjectIdText (s : jstring) : bool :=
  Nat.eqb (length s) 24 && forallb isLowerHexUnit s.

Fixpoint distinct (l : list jstring) : bool :=
  match l with
  | [] => true
  | x :: r => negb (existsb (jeqb x) r) && distinct r
  end.

(** conversationSchema: [_id] is an ObjectId, [employeeId] is required. *)
Definition wfConversation (c : Conversation) : bool :=
  isObjectIdText (c_id c) && nonEmpty (employeeId c).

(** [_id] is unique in a collection, and [employeeId] is declared unique. *)
Definition wfDb (db : Db) : bool :=
  forallb wfConversation (conversations db)
  && distinct (map c_id (conversations db))
  && distinct (map employeeId (conversations db)).

End Invariants.
Import Invariants.

(** ** The preview of a message in the words of the specification *)
Module PreviewSpec.

(** Image marker for kind image, file marker otherwise. *)
Definition marker (kind : jstring) : jstring :=
  if jeqb kind (lit "image") then CAMERA else PAGE.

(** The glyph-tagged summary of one attachment: marker, a space, name. *)
Definition attachmentSummary (a : AttachmentInput) : jstring :=
  marker (in_type a) ++ lit " " ++ in_name a.

(** [b] follows [a], separated by one space when [a] is present. *)
Definition followedBy (a b : jstring) : jstring :=
  match a with
  | [] => b
  | _ :: _ => a ++ lit " " ++ b
  end.

(** The suffix for [k] further attachments. *)
Definition moreSuffix (k : nat) : jstring :=
  match k with
  | O => []
  | S _ => lit " (+" ++ decimal k ++ lit ")"
  end.

(** Trimmed text, summary of the first attachment, count of the others, cut
    to 100 code units. *)
Definition previewSpec (text : jstring) (attachments : list AttachmentInput) : jstring :=
  firstn 100
    match attachments with
    | [] => trim text
    | a :: rest =>
        followedBy (trim text) (attachmentSummary a) ++ moreSuffix (length attachments - 1)
    end.

End PreviewSpec.
Import PreviewSpec.

(** ** Sample data, after scripts/seedData.js *)
Module Samples.

Definition aliceId : jstring := lit "65f0a1b2c3d4e5f6a7b8c9d0".
Definition bobId : jstring := lit "65f0a1b2c3d4e5f6a7b8c9d1".

Definition alice : Conversation :=
  mkConversation aliceId (lit "emp_alice_johnson") (lit "Alice Johnson")
    [lit "Sarah Connor (HR)"; lit "Alice Johnson"] [] None.

(** Alice's conversation after a message stamped 10. *)
Definition aliceAt10 : Conversation :=
  mkConversation aliceId (lit "emp_alice_johnson") (lit "Alice Johnson")
    [lit "Sarah Connor (HR)"; lit "Alice Johnson"] (lit "See you") (Some 10%Z).

Definition bob : Conversation :=
  mkConversation bobId (lit "emp_bob_smith") (lit "Bob Smith")
    [lit "Sarah Connor (HR)"; lit "Bob Smith"] [] None.

Definition seeded : Db := mkDb [alice; bob] [].
Definition seededAt10 : Db := mkDb [aliceAt10; bob] [].

Definition photo : AttachmentInput :=
  mkAttachmentInput (lit "https://cdn.example/p.jpg") (lit "image") (lit "photo.jpg")
    (Some 2048%N) (Some (lit "chat/p1")).

Definition report : AttachmentInput :=
  mkAttachmentInput (lit "https://cdn.example/r.pdf") (lit "file") (lit "report.pdf")
    None None.

(** A request for a conversation nobody has, with nothing to say. *)
Definition blankToNobody : MessageController.Body :=
  MessageController.mkBody (lit "emp_nobody") (lit "hr_sconnor") (Some (lit "   ")) (Some []).

(** Alice writes only blanks. *)
Definition blanksFromAlice : MessageController.Body :=
  MessageController.mkBody (lit "emp_alice_johnson") (lit "emp_alice_johnson")
    (Some (lit "   ")) None.

(** HR greets Alice. *)
Definition hiAlice : MessageController.Body :=
  MessageController.mkBody (lit "emp_alice_johnson") (lit "hr_sconnor")
    (Some (lit "Hi Alice")) None.

(** Alice sends a photo and a report, without text. *)
Definition twoFiles : MessageController.Body :=
  MessageController.mkBody (lit "emp_alice_johnson") (lit "emp_alice_johnson")
    None (Some [photo; report]).

(** The document stored for [twoFiles] at time 100 under the [_id] 7. *)
Definition twoFilesStored : Message :=
  newMessage 7 aliceId (lit "emp_alice_johnson") [] [photo; report] 100.

(** Bob writes into Alice's conversation. *)
Definition bobToAlice : MessageController.Body :=
  MessageController.mkBody (lit "emp_alice_johnson") (lit "emp_bob_smith")
    (Some (lit "Hello")) None.

(** HR writes 99 letters, a space and one more letter to Alice: the cut at
    100 code units falls right after the space. *)
Definition longTail : jstring := repeat 97%N 99 ++ lit " b".

Definition longTailToAlice : MessageController.Body :=
  MessageController.mkBody (lit "emp_alice_johnson") (lit "hr_sconnor") (Some longTail) None.

(** A conversation whose employee key is the text of Alice's [_id]. *)
Definition shadow : Conversation :=
  mkConversation bobId aliceId (lit "Shadow") [lit "Sarah Connor (HR)"; lit "Shadow"] [] None.

Definition shadowed : Db := mkDb [alice; shadow] [].

(** A stored message whose conversation has been deleted since. *)
Definition orphan : Message :=
  mkMessage 1%N aliceId (lit "hr_sconnor") (lit "Hi Alice") [] 5%Z.

Definition orphaned : Db := mkDb [bob] [orphan].

End Samples.
Import Samples.

(** ** messageService.js: deleteMessage *)
Module MessageMutations.

(** The collection without its first document that satisfies [p]. *)
Fixpoint removeFirst (p : Message -> bool) (l : list Message) : list Message :=
  match l with
  | [] => []
  | m :: r => if p m then r else m :: removeFirst p r
  end.

(** [Message.findByIdAndDelete(messageId)]: the deleted document, or null
    when no document has that [_id]. *)
Definition deleteMessage (db : Db) (messageId : N) : option Message * Db :=
  match find (fun m => N.eqb (m_id m) messageId) (messages db) with
  | None => (None, db)
  | Some message =>
      (Some message,
       {| conversations := conversations db;
          messages := removeFirst (fun m => N.eqb (m_id m) messageId) (messages db) |})
  end.

(** A sequence of conditional updates of one conversation, in the order in
    which they reach the store; each is a pair of a preview and a stamp. *)
Definition applyUpdates (db : Db) (id : jstring) (updates : list (jstring * Z)) : Db :=
  fold_left (fun d u => updateLastMessage d id (fst u) (snd u)) updates db.

(** The same sequence as one document sees it. *)
Definition updatedByAll (id : jstring) (updates : list (jstring * Z)) (c : Conversation)
  : Conversation :=
  fold_left (fun x u => updatedBy id (fst u) (snd u) x) updates c.

End MessageMutations.
Import MessageMutations.

(** ** services/conversationService.js and controllers/conversationController.js *)
Module ConversationService.

(** The order of [lastMessageTimestamp] values in a sort: an absent or null
    stamp comes before every date. *)
Definition stampLe (a b : option Z) : bool :=
  match a, b with
  | None, _ => true
  | Some _, None => false
  | Some x, Some y => (x <=? y)%Z
  end.

(** [.sort({ lastMessageTimestamp: -1 })], as a stable insertion sort. *)
Fixpoint insertByActivity (c : Conversation) (l : list Conversation) : list Conversation :=
  match l with
  | [] => [c]
  | x :: r =>
      if stampLe (lastMessageTimestamp x) (lastMessageTimestamp c) then c :: l
      else x :: insertByActivity c r
  end.

Fixpoint sortByActivity (l : list Conversation) : list Conversation :=
  match l with
  | [] => []
  | c :: r => insertByActivity c (sortByActivity r)
  end.

(** Newest activity first. *)
Definition newestFirst (a b : Conversation) : Prop :=
  stampLe (lastMessageTimestamp b) (lastMessageTimestamp a) = true.

(** getAllConversations *)
Definition getAllConversations (db : Db) : list Conversation :=
  sortByActivity (conversations db).

(** getConversationByEmployeeId and getConversation: by employee key only. *)
Definition getConversationByEmployeeId (db : Db) (employeeId : jstring)
  : option Conversation :=
  findOneByEmployeeId db employeeId.

(** updateConversationLastMessage: the update without a condition, on the
    first document whose [employeeId] is the trimmed key.  [now] is the
    reading of [new Date()]. *)
Definition updateConversationLastMessage (db : Db) (employeeId messageText : jstring)
  (now : Z) : option Conversation * Db :=
  match findOneByEmployeeId db employeeId with
  | None => (None, db)
  | Some conversation =>
      (Some (setLastMessage (substring0 100 messageText) now conversation),
       {| conversations :=
            updateFirst (fun c => jeqb (Store.employeeId c) (trim employeeId))
              (setLastMessage (substring0 100 messageText) now) (conversations db);
          messages := messages db |})
  end.

(** The answers of the controllers that read. *)
Inductive Reply (A : Type) : Type :=
| Found (status : nat) (data : A)
| Listed (status : nat) (data : A) (count : nat)
| Failed (status : nat) (error : jstring).
Arguments Failed {A}.

(** conversationController.getConversationByEmployeeId *)
Definition replyConversation (db : Db) (employeeId : jstring) : Reply Conversation :=
  match getConversationByEmployeeId db employeeId with
  | None => Failed 404 (lit "Conversation not found")
  | Some conversation => Found 200 conversation
  end.

(** conversationController.getAllConversations *)
Definition replyAllConversations (db : Db) : Reply (list Conversation) :=
  let conversations := getAllConversations db in
  Listed 200 conversations (length conversations).

(** messageController.getMessagesByConversationId, with its answer. *)
Definition replyMessages (db : Db) (conversationId : jstring) : Reply (list Message) :=
  match MessageService.getMessagesByConversationId db conversationId with
  | Ok messages => Listed 200 messages (length messages)
  | Err _ => Failed 500 (lit "Failed to fetch messages")
  end.

End ConversationService.
Import ConversationService.

(** ** socket/chatHandlers.js: rooms and the Conversation change stream *)
Module Rooms.

Import ChatHandlers.

(** The rooms of one socket.  [socket.join] adds a room once, [socket.leave]
    removes it. *)
Definition join (room : jstring) (rooms : list jstring) : list jstring :=
  if existsb (jeqb room) rooms then rooms else rooms ++ [room].

Definition leave (room : jstring) (rooms : list jstring) : list jstring :=
  filter (fun r => negb (jeqb r room)) rooms.

Definition inRoom (room : jstring) (rooms : list jstring) : bool :=
  existsb (jeqb room) rooms.

(** [`conversation:${id}`] *)
Definition roomOf (id : jstring) : jstring := lit "conversation:" ++ id.

(** 'subscribe:conversations' and 'unsubscribe:conversations' *)
Definition subscribeConversations (rooms : list jstring) : list jstring :=
  join (lit "conversations") rooms.

Definition unsubscribeConversations (rooms : list jstring) : list jstring :=
  leave (lit "conversations") rooms.

(** 'subscribe:messages'.  [rejected] tells that a query was rejected, which
    runs the [catch] branch. *)
Definition subscribeMessages (db : Db) (rejected : bool)
  (conversationIdOrEmployeeId : jstring) (rooms : list jstring) : list jstring :=
  if rejected then join (roomOf conversationIdOrEmployeeId) rooms
  else
    match resolveConversation db conversationIdOrEmployeeId with
    | Some conversation => join (roomOf (c_id conversation)) rooms
    | None => join (roomOf conversationIdOrEmployeeId) rooms
    end.

(** 'unsubscribe:messages' *)
Definition unsubscribeMessages (db : Db) (rejected : bool)
  (conversationIdOrEmployeeId : jstring) (rooms : list jstring) : list jstring :=
  if rejected then leave (roomOf conversationIdOrEmployeeId) rooms
  else
    match resolveConversation db conversationIdOrEmployeeId with
    | Some conversation => leave (roomOf (c_id conversation)) rooms
    | None => leave (roomOf conversationIdOrEmployeeId) rooms
    end.

(** The room that 'subscribe:messages' and 'unsubscribe:messages' act on. *)
Definition roomFor (db : Db) (rejected : bool) (conversationIdOrEmployeeId : jstring)
  : jstring :=
  if rejected then roomOf conversationIdOrEmployeeId
  else
    match resolveConversation db conversationIdOrEmployeeId with
    | Some conversation => roomOf (c_id conversation)
    | None => roomOf conversationIdOrEmployeeId
    end.

(** [io.to(room).emit(...)] reaches the sockets that are in [room]. *)
Definition reaches (rooms : list jstring) (e : Effect) : bool :=
  match e with
  | Emit room _ _ => inRoom room rooms
  | _ => false
  end.

(** A change event of the Conversation collection. *)
Record ConversationChange : Type := mkConversationChange {
  cc_operationType : OperationType;
  cc_fullDocument : option Conversation;
  cc_documentKey : jstring
}.

Definition conversationUpdated (conversation : Conversation) : list Effect :=
  [ Emit (lit "conversations") (lit "conversation:updated")
         (ConversationPayload conversation);
    ConsoleLog ([55357%N; 56546%N] ++ lit " Emitted conversation:updated event") ].

(** The 'change' listener of the Conversation change stream: an insert
    carries its document, an update has it fetched by [_id]. *)
Definition onConversationChange (db : Db) (rejected : bool) (change : ConversationChange)
  : list Effect :=
  match cc_operationType change with
  | OpInsert =>
      match cc_fullDocument change with
      | Some conversation => conversationUpdated conversation
      | None => []
      end
  | OpUpdate =>
      if rejected then [ConsoleError (lit "Error fetching conversation:")]
      else
        match lookupId db (cc_documentKey change) with
        | Some conversation => conversationUpdated conversation
        | None => []
        end
  | _ => []
  end.

End Rooms.
Import Rooms.

(** ** Helpers of the clients and of the server
    (dashbaord/src/utils/helpers.js, dashbaord/src/utils/validators.js,
    mobile/src/utils/helpers.js, server utils/helpers.js) *)
Module ClientHelpers.

(** helpers.js, doesSenderIdMatchParticipantName *)
Definition doesSenderIdMatchParticipantName (senderId participantName : jstring) : bool :=
  if negb (nonEmpty senderId) || negb (nonEmpty participantName) then false
  else jeqb senderId (getSenderIdFromParticipantName participantName).

(** helpers.js, truncateString, for an integer [maxLength]. *)
Definition truncateString (str : jstring) (maxLength : Z) : jstring :=
  if negb (nonEmpty str) || (Z.of_nat (length str) <=? maxLength)%Z then str
  else substring0 (Z.to_nat maxLength) str ++ lit "...".

(** The result of a validator: [isValid] and [error]. *)
Inductive Validation : Type :=
| Valid
| Invalid (error : jstring).

(** validators.js, isNotEmpty and hasMaxLength, on a string. *)
Definition isNotEmpty (value : jstring) : bool :=
  Nat.ltb 0 (length (trim value)).

Definition hasMaxLength (value : jstring) (maxLength : nat) : bool :=
  nonEmpty value && Nat.leb (length (trim value)) maxLength.

(** validators.js, validateMessage (dashboard) *)
Definition validateMessageDashboard (message : jstring) : Validation :=
  if negb (isNotEmpty message) then Invalid (lit "Message cannot be empty")
  else if negb (hasMaxLength message 1000)
  then Invalid (lit "Message cannot exceed 1000 characters")
  else Valid.

(** mobile/src/utils/helpers.js, validateMessage *)
Definition validateMessageMobile (message : jstring) (maxLength : nat) : Validation :=
  if negb (nonEmpty message) || Nat.eqb (length (trim message)) 0
  then Invalid (lit "Message cannot be empty")
  else if Nat.ltb maxLength (length message)
  then Invalid (lit "Message cannot exceed " ++ decimal maxLength ++ lit " characters")
  else Valid.

(** Server utils/helpers.js, validateMessage, on a string. *)
Definition validateMessageServer (text : jstring) : Validation :=
  if negb (nonEmpty text) then Invalid (lit "Message text must be a non-empty string")
  else
    let trimmed := trim text in
    if Nat.eqb (length trimmed) 0 then Invalid (lit "Message text cannot be empty")
    else if Nat.ltb 1000 (length trimmed)
    then Invalid (lit "Message text cannot exceed 1000 characters")
    else Valid.

(** Server utils/helpers.js, generateEmployeeId, on an arbitrary value: the
    guard [!employeeName || typeof employeeName !== 'string'] throws
    [Error('Employee name must be a non-empty string')], which is [None]
    here; the chain of string operations is that of the clients. *)
Definition generateEmployeeIdServer (employeeName : jsval) : option jstring :=
  if negb (truthy employeeName) then None
  else match employeeName with
       | VString s => Some (lit "emp_" ++ slug s)
       | _ => None
       end.

(** [ToInt32] *)
Definition toInt32 (z : Z) : Z := ((z + 2147483648) mod 4294967296 - 2147483648)%Z.

(** [hash << 5] *)
Definition shiftLeft5 (hash : Z) : Z := toInt32 (toInt32 hash * 32).

Definition colors : list jstring :=
  [ lit "#3B82F6"; lit "#8B5CF6"; lit "#EC4899"; lit "#F59E0B";
    lit "#10B981"; lit "#06B6D4"; lit "#6366F1"; lit "#EF4444" ].

(** The loop of generateColorFromString:
    [hash = seed.charCodeAt(i) + ((hash << 5) - hash)].  Only the shift wraps
    to 32 bits; the sum is a Number, which is exact as long as it stays
    below 2^53, that is for every seed of fewer than 2^21 code units. *)
Definition hashOf (seed : jstring) : Z :=
  fold_left (fun hash c => (Z.of_N c + (shiftLeft5 hash - hash))%Z) seed 0%Z.

(** helpers.js, generateColorFromString *)
Definition generateColorFromString (seed : jstring) : jstring :=
  if negb (nonEmpty seed) then lit "#3B82F6"
  else nth (Z.to_nat (Z.abs (hashOf seed) mod Z.of_nat (length colors))) colors [].

(** The order of the default [Array.prototype.sort]: strings by code units. *)
Fixpoint jltb (s t : jstring) : bool :=
  match s, t with
  | _, [] => false
  | [], _ :: _ => true
  | a :: s', b :: t' => (a <? b)%N || (N.eqb a b && jltb s' t')
  end.

Fixpoint insertSorted (x : jstring) (l : list jstring) : list jstring :=
  match l with
  | [] => [x]
  | y :: r => if jltb y x then y :: insertSorted x r else x :: l
  end.

Fixpoint sortStrings (l : list jstring) : list jstring :=
  match l with
  | [] => []
  | x :: r => insertSorted x (sortStrings r)
  end.

(** [[...new Set(names)]]: the first occurrence of every value, in order. *)
Fixpoint unique (seen : list jstring) (l : list jstring) : list jstring :=
  match l with
  | [] => []
  | x :: r => if existsb (jeqb x) seen then unique seen r else x :: unique (x :: seen) r
  end.

(** helpers.js, getUniqueEmployeeNames, on the [employeeName] fields of the
    feedback list (the empty string for a missing field). *)
Definition getUniqueEmployeeNames (employeeNames : list jstring) : list jstring :=
  let names :=
    filter (fun name => nonEmpty name && Nat.ltb 0 (length (trim name))) employeeNames in
  sortStrings (unique [] names).

End ClientHelpers.
Import ClientHelpers.

(** ** services/chatApi.js (dashboard and mobile): getEmployeeNameFromId *)
Module EmployeeNames.

(** [s.split(sep)] for a separator of one code unit. *)
Fixpoint split (sep : N) (s : jstring) : list jstring :=
  match s with
  | [] => [[]]
  | c :: r =>
      if N.eqb c sep then [] :: split sep r
      else match split sep r with
           | w :: ws => (c :: w) :: ws
           | [] => [[c]]
           end
  end.

(** [words.join(sep)] *)
Fixpoint joinWith (sep : jstring) (words : list jstring) : jstring :=
  match words with
  | [] => []
  | [w] => w
  | w :: ws => w ++ sep ++ joinWith sep ws
  end.

Section WithUpperCase.

(** [toUpperCase] of a string of one code unit.  The function is a table of
    the language, taken as it is. *)
Variable toUpperCase1 : N -> jstring.

(** [word.charAt(0).toUpperCase() + word.slice(1)] *)
Definition capitalize (word : jstring) : jstring :=
  match word with
  | [] => []
  | c :: r => toUpperCase1 c ++ r
  end.

(** getEmployeeNameFromId *)
Definition getEmployeeNameFromId (employeeId : jstring) : jstring :=
  if negb (nonEmpty employeeId) || negb (startsWith (lit "emp_") employeeId) then []
  else joinWith (lit " ") (map capitalize (split 95 (skipn 4 employeeId))).

End WithUpperCase.

(** What [toUpperCase] does to a unit of Basic Latin. *)
Definition upperBasicLatin (c : N) : jstring :=
  if ((97 <=? c) && (c <=? 122))%N then [(c - 32)%N] else [c].

(** A unit of [a-z0-9]. *)
Definition idUnit (c : N) : bool := isSlugUnit c && negb (N.eqb c 95).

(** A word of an identifier: not empty, of [a-z0-9] only. *)
Definition isIdWord (w : jstring) : bool :=
  nonEmpty w && forallb idUnit w.

End EmployeeNames.
Import EmployeeNames.

(** Settles every comparison of the goal that linear arithmetic decides. *)
Ltac settle_cmp :=
  repeat match goal with
         | |- context [(?a <=? ?b)%N] =>
             first [ replace (a <=? b)%N with true by (symmetry; apply N.leb_le; lia)
                   | replace (a <=? b)%N with false by (symmetry; apply N.leb_gt; lia) ]
         | |- context [(?a =? ?b)%N] =>
             first [ replace (a =? b)%N with true by (symmetry; apply N.eqb_eq; lia)
                   | replace (a =? b)%N with false by (symmetry; apply N.eqb_neq; lia) ]
         end.

(* ===================================================================== *)
(** * Part II. Properties                                                 *)
(* ===================================================================== *)

(** ** Strings *)
Section StringFacts.

Lemma jeqb_eq (s t : jstring) : jeqb s t = true <-> s = t.
Proof.
  revert t; induction s as [|a s IH]; intros [|b t]; simpl; split;
    try congruence; try reflexivity.
  - intros H. apply andb_true_iff in H as [Hab Hst].
    apply N.eqb_eq in Hab. apply IH in Hst. congruence.
  - intros H. injection H as -> ->.
    rewrite N.eqb_refl. simpl. apply IH. reflexivity.
Qed.

Lemma jeqb_refl (s : jstring) : jeqb s s = true.
Proof. apply jeqb_eq. reflexivity. Qed.

Lemma jeqb_neq (s t : jstring) : jeqb s t = false <-> s <> t.
Proof.
  split.
  - intros H E. apply jeqb_eq in E. congruence.
  - intros H. destruct (jeqb s t) eqn:E; [|reflexivity].
    apply jeqb_eq in E. contradiction.
Qed.

Lemma jeqb_sym (s t : jstring) : jeqb s t = jeqb t s.
Proof.
  destruct (jeqb s t) eqn:E.
  - apply jeqb_eq in E. subst. symmetry. apply jeqb_refl.
  - symmetry. apply jeqb_neq. apply jeqb_neq in E. congruence.
Qed.

Lemma nonEmpty_true (s : jstring) : nonEmpty s = true <-> s <> [].
Proof. destruct s; simpl; split; congruence. Qed.

Lemma nonEmpty_length (s : jstring) : nonEmpty s = Nat.ltb 0 (length s).
Proof. destruct s; reflexivity. Qed.

Lemma trimStart_length (s : jstring) : length (trimStart s) <= length s.
Proof.
  induction s as [|c r IH]; simpl; [lia|].
  destruct (isWhiteSpace c); simpl; lia.
Qed.

Lemma trim_length (s : jstring) : length (trim s) <= length s.
Proof.
  unfold trim, trimEnd. rewrite length_rev.
  etransitivity; [apply trimStart_length|].
  rewrite length_rev. apply trimStart_length.
Qed.

Lemma trimStart_keeps_last (l : jstring) (c : N) :
  isWhiteSpace c = false -> trimStart (l ++ [c]) <> [].
Proof.
  intros Hc. induction l as [|a l IH]; simpl.
  - rewrite Hc. discriminate.
  - destruct (isWhiteSpace a); [exact IH | discriminate].
Qed.

(** A string that starts with a unit that is no white space does not trim
    to the empty string. *)
Lemma trim_nonEmpty (c : N) (r : jstring) :
  isWhiteSpace c = false -> nonEmpty (trim (c :: r)) = true.
Proof.
  intros Hc. apply nonEmpty_true. unfold trim, trimEnd.
  simpl trimStart. rewrite Hc. simpl rev.
  intros E. apply (f_equal (@rev N)) in E. rewrite rev_involutive in E.
  simpl in E. revert E. apply trimStart_keeps_last. exact Hc.
Qed.

Lemma trimStart_fixed (s : jstring) :
  match s with [] => True | c :: _ => isWhiteSpace c = false end ->
  trimStart s = s.
Proof. destruct s as [|c r]; simpl; [reflexivity|]. intros ->. reflexivity. Qed.

Lemma trimStart_head (s : jstring) :
  match trimStart s with [] => True | c :: _ => isWhiteSpace c = false end.
Proof.
  induction s as [|c r IH]; simpl; [exact I|].
  destruct (isWhiteSpace c) eqn:E; [exact IH | exact E].
Qed.

Lemma trimStart_idem (s : jstring) : trimStart (trimStart s) = trimStart s.
Proof. apply trimStart_fixed, trimStart_head. Qed.

Lemma trimStart_snoc (l : jstring) (c : N) :
  isWhiteSpace c = false -> exists l', trimStart (l ++ [c]) = l' ++ [c].
Proof.
  intros Hc. induction l as [|a l IH]; simpl.
  - rewrite Hc. exists []. reflexivity.
  - destruct (isWhiteSpace a); [exact IH|]. exists (a :: l). reflexivity.
Qed.

Lemma trimEnd_idem (s : jstring) : trimEnd (trimEnd s) = trimEnd s.
Proof. unfold trimEnd. rewrite rev_involutive, trimStart_idem. reflexivity. Qed.

Lemma trimEnd_head (c : N) (r : jstring) :
  isWhiteSpace c = false -> exists r', trimEnd (c :: r) = c :: r'.
Proof.
  intros Hc. unfold trimEnd. simpl rev.
  destruct (trimStart_snoc (rev r) c Hc) as [l' ->].
  rewrite rev_app_distr. simpl. eauto.
Qed.

(** Trimming twice is trimming once. *)
Lemma trim_idem (s : jstring) : trim (trim s) = trim s.
Proof.
  unfold trim. pose proof (trimStart_head s) as Hh.
  destruct (trimStart s) as [|c r] eqn:E; [reflexivity|].
  destruct (trimEnd_head c r Hh) as [r' Hr].
  rewrite (trimStart_fixed (trimEnd (c :: r))) by (rewrite Hr; exact Hh).
  apply trimEnd_idem.
Qed.

Lemma trim_nil_of_nil (s : jstring) : s = [] -> trim s = [].
Proof. intros ->. reflexivity. Qed.

Lemma trimStart_noWs (s : jstring) :
  forallb (fun c => negb (isWhiteSpace c)) s = true -> trimStart s = s.
Proof.
  intros H. apply trimStart_fixed. destruct s as [|c r]; [exact I|].
  simpl in H. apply andb_true_iff in H as [H _]. apply negb_true_iff. exact H.
Qed.

Lemma trim_noWs (s : jstring) :
  forallb (fun c => negb (isWhiteSpace c)) s = true -> trim s = s.
Proof.
  intros H. unfold trim, trimEnd. rewrite (trimStart_noWs _ H).
  rewrite trimStart_noWs; [apply rev_involutive|].
  apply forallb_forall. intros c Hc. rewrite forallb_forall in H. apply H.
  apply in_rev. exact Hc.
Qed.

Lemma trim_nonEmpty_source (s : jstring) : trim s <> [] -> s <> [].
Proof. intros H E. apply H. subst. reflexivity. Qed.

End StringFacts.

(** ** Identity resolver *)
Section IdentityFacts.

Example generateEmployeeId_jane :
  generateEmployeeId (lit "Jane Doe") = lit "emp_jane_doe".
Proof. reflexivity. Qed.

Example generateEmployeeId_noisy :
  generateEmployeeId (lit "  Alice   Johnson-O'Neil 3rd ") = lit "emp_alice_johnsononeil_3rd".
Proof. reflexivity. Qed.

Lemma isHRName_nonEmpty (name : jstring) : isHRName name = true -> name <> [].
Proof. intros H E. subst. discriminate H. Qed.

Lemma derive_hr (name : jstring) :
  isHRName name = true -> getSenderIdFromParticipantName name = HR_SENDER_ID.
Proof.
  intros H. unfold getSenderIdFromParticipantName.
  destruct name; [discriminate H|]. simpl negb. cbv iota. rewrite H. reflexivity.
Qed.

Lemma derive_employee (name : jstring) :
  name <> [] -> isHRName name = false ->
  getSenderIdFromParticipantName name = lit "emp_" ++ slug name.
Proof.
  intros Hne H. unfold getSenderIdFromParticipantName, generateEmployeeId.
  destruct name; [contradiction|]. simpl negb. cbv iota. rewrite H. reflexivity.
Qed.

(** validateSenderId on a pair of names, as one boolean expression. *)
Lemma validateSenderId_bool (senderId p0 p1 : jstring) :
  validateSenderId senderId [p0; p1]
  = (nonEmpty p0 && isHRName p0 && jeqb senderId HR_SENDER_ID)
    || (nonEmpty p1 && jeqb senderId (lit "emp_" ++ slug p1)).
Proof.
  unfold validateSenderId. cbn [length nth]. change (Nat.ltb 2 2) with false.
  cbv iota zeta.
  destruct (nonEmpty p0 && isHRName p0 && jeqb senderId HR_SENDER_ID);
    destruct (nonEmpty p1 && jeqb senderId (lit "emp_" ++ slug p1)); reflexivity.
Qed.

(** What validateSenderId accepts for a pair of names. *)
Lemma validateSenderId_pair (senderId p0 p1 : jstring) :
  validateSenderId senderId [p0; p1] = true <->
  (isHRName p0 = true /\ senderId = HR_SENDER_ID)
  \/ (p1 <> [] /\ senderId = lit "emp_" ++ slug p1).
Proof.
  rewrite validateSenderId_bool, orb_true_iff, !andb_true_iff, !jeqb_eq, !nonEmpty_true.
  split.
  - intros [[[_ H] E]|[H E]]; auto.
  - intros [[H E]|[H E]]; auto.
    left. split; [split|]; auto. apply isHRName_nonEmpty; exact H.
Qed.

(** C2 (as amended).  For a conversation with the two participant names
    [p0] and [p1], validateSenderId accepts [senderId] exactly when [p0]
    matches the HR pattern and [senderId] is the fixed HR identifier, or [p1]
    is not empty and [senderId] is the employee-prefixed slug of [p1].  When
    [p0] matches the HR pattern and [p1] is a non-empty name that does not,
    these are exactly the two identifiers that getSenderIdFromParticipantName
    derives from the two names.  An identifier that validateSenderId does
    not accept is refused by createMessage with InvalidSender. *)
Theorem validateSender_accepts (c : Conversation) (senderId p0 p1 : jstring) :
  participantNames c = [p0; p1] ->
  (validateSenderId senderId (participantNames c) = true <->
     (isHRName p0 = true /\ senderId = HR_SENDER_ID)
     \/ (p1 <> [] /\ senderId = lit "emp_" ++ slug p1))
  /\ (isHRName p0 = true -> p1 <> [] -> isHRName p1 = false ->
      (validateSenderId senderId (participantNames c) = true <->
         senderId = getSenderIdFromParticipantName p0
         \/ senderId = getSenderIdFromParticipantName p1))
  /\ (validateSenderId senderId (participantNames c) = false ->
      forall db cid txt atts now nid,
        resolveConversation db cid = Some c ->
        MessageService.createMessage db cid senderId txt atts now nid
        = (Err InvalidSender, db)).
Proof.
  intros Hc. split; [|split].
  - rewrite Hc. apply validateSenderId_pair.
  - intros H0 Hne H1. rewrite Hc.
    rewrite (derive_hr _ H0), (derive_employee Hne H1), validateSenderId_pair.
    split.
    + intros [[_ H]|[_ H]]; auto.
    + intros [H|H]; auto.
  - intros Hv db cid txt atts now nid Hres.
    unfold MessageService.createMessage. rewrite Hres, Hv. reflexivity.
Qed.

(** C2, an instance: the seeded conversation of Alice Johnson accepts the
    identifier derived from her name. *)
Lemma validateSender_accepts_witness :
  validateSenderId (lit "emp_alice_johnson")
    (participantNames
       (mkConversation (lit "65f0a1b2c3d4e5f6a7b8c9d0") (lit "emp_alice_johnson")
          (lit "Alice Johnson") [lit "Sarah Connor (HR)"; lit "Alice Johnson"] [] None))
  = true.
Proof.
  apply (proj1 (proj2 (validateSender_accepts
    (mkConversation (lit "65f0a1b2c3d4e5f6a7b8c9d0") (lit "emp_alice_johnson")
       (lit "Alice Johnson") [lit "Sarah Connor (HR)"; lit "Alice Johnson"] [] None)
    (lit "emp_alice_johnson") (p0 := lit "Sarah Connor (HR)") (p1 := lit "Alice Johnson")
    eq_refl))).
  - reflexivity.
  - discriminate.
  - reflexivity.
  - right. reflexivity.
Defined.

(** C2 as stated fails: an employee whose name contains the HR name is
    accepted under the slug of the name, which is neither of the two
    identifiers derived from the names (both derive the HR identifier). *)
Lemma validateSender_not_the_derived_ids :
  ~ (validateSenderId (lit "emp_sarah_connor_jr")
       [lit "Sarah Connor (HR)"; lit "Sarah Connor Jr"] = true <->
     lit "emp_sarah_connor_jr" = getSenderIdFromParticipantName (lit "Sarah Connor (HR)")
     \/ lit "emp_sarah_connor_jr" = getSenderIdFromParticipantName (lit "Sarah Connor Jr")).
Proof.
  intros [H _]. destruct (H eq_refl) as [E|E]; vm_compute in E; discriminate E.
Qed.

(** The other direction fails as well: the identifier derived from a first
    name without the HR marker is rejected. *)
Example validateSender_rejects_derived_first :
  getSenderIdFromParticipantName (lit "Bob Smith") = lit "emp_bob_smith"
  /\ validateSenderId (lit "emp_bob_smith") [lit "Bob Smith"; lit "Alice Johnson"] = false.
Proof. split; reflexivity. Qed.

(** Scenario of the specification: Bob's identifier in Alice's conversation. *)
Example validateSender_rejects_bob :
  validateSenderId (lit "emp_bob_smith") [lit "Sarah Connor (HR)"; lit "Alice Johnson"] = false.
Proof. reflexivity. Qed.




End IdentityFacts.

(** ** Conversation metadata updater *)
Section MetadataFacts.

Lemma distinct_NoDup (l : list jstring) : distinct l = true -> NoDup l.
Proof.
  induction l as [|x r IH]; simpl; intros H; constructor.
  - apply andb_true_iff in H as [H _]. apply negb_true_iff in H.
    intros Hin. assert (existsb (jeqb x) r = true); [|congruence].
    apply existsb_exists. exists x. split; [exact Hin | apply jeqb_refl].
  - apply IH. apply andb_true_iff in H as [_ H]. exact H.
Qed.

Lemma updatedBy_id (id p : jstring) (t : Z) (c : Conversation) :
  c_id (updatedBy id p t c) = c_id c.
Proof. unfold updatedBy. destruct (_ && _); reflexivity. Qed.

Lemma updatedBy_employeeId (id p : jstring) (t : Z) (c : Conversation) :
  employeeId (updatedBy id p t c) = employeeId c.
Proof. unfold updatedBy. destruct (_ && _); reflexivity. Qed.

Lemma updatedBy_other (id p : jstring) (t : Z) (l : list Conversation) :
  ~ In id (map c_id l) -> map (updatedBy id p t) l = l.
Proof.
  induction l as [|c r IH]; simpl; intros H; [reflexivity|].
  f_equal.
  - unfold updatedBy. replace (jeqb (c_id c) id) with false; [reflexivity|].
    symmetry. apply jeqb_neq. intros E. apply H. left. exact E.
  - apply IH. intros Hin. apply H. right. exact Hin.
Qed.

(** With unique [_id]s, updating the first match is updating every match. *)
Lemma updateFirst_updatedBy (id p : jstring) (t : Z) (l : list Conversation) :
  NoDup (map c_id l) ->
  updateFirst (fun c => jeqb (c_id c) id && olderThan c t) (setLastMessage p t) l
  = map (updatedBy id p t) l.
Proof.
  induction l as [|c r IH]; simpl; intros Hnd; [reflexivity|].
  inversion Hnd as [|? ? Hnotin Hnd']; subst.
  unfold updatedBy at 1.
  destruct (jeqb (c_id c) id && olderThan c t) eqn:E.
  - f_equal. symmetry. apply updatedBy_other.
    apply andb_true_iff in E as [E _]. apply jeqb_eq in E. congruence.
  - f_equal. apply IH. exact Hnd'.
Qed.

Lemma map_updatedBy_ids (id p : jstring) (t : Z) (l : list Conversation) :
  map c_id (map (updatedBy id p t) l) = map c_id l.
Proof.
  rewrite map_map. apply map_ext. intros c. apply updatedBy_id.
Qed.

(** The later of two stamps wins on every document, in both orders. *)
Lemma updatedBy_commute (id p1 p2 : jstring) (t1 t2 : Z) (c : Conversation) :
  (t1 < t2)%Z ->
  updatedBy id p2 t2 (updatedBy id p1 t1 c) = updatedBy id p1 t1 (updatedBy id p2 t2 c).
Proof.
  intros Hlt. destruct c as [cid eid en pn lm [t0|]];
    unfold updatedBy, olderThan, setLastMessage; simpl;
    destruct (jeqb cid id) eqn:E; simpl; rewrite ?E; simpl; try reflexivity.
  - destruct (Z.ltb_spec t0 t1), (Z.ltb_spec t0 t2); simpl; rewrite ?E; simpl;
      try lia;
      repeat match goal with
             | |- context [(?a <? ?b)%Z] => destruct (Z.ltb_spec a b); try lia
             end; simpl; rewrite ?E; reflexivity.
  - destruct (Z.ltb_spec t1 t2), (Z.ltb_spec t2 t1); try lia. reflexivity.
Qed.

Lemma updatedBy_twice (id p1 p2 : jstring) (t1 t2 : Z) (c : Conversation) :
  (t1 < t2)%Z -> c_id c = id ->
  updatedBy id p2 t2 (updatedBy id p1 t1 c)
  = if olderThan c (Z.max t1 t2) then setLastMessage p2 (Z.max t1 t2) c else c.
Proof.
  intros Hlt Hid. rewrite Z.max_r by lia. subst id.
  destruct c as [cid eid en pn lm [t0|]];
    unfold updatedBy, olderThan, setLastMessage; simpl; rewrite ?jeqb_refl; simpl.
  - destruct (Z.ltb_spec t0 t1), (Z.ltb_spec t0 t2); simpl; rewrite ?jeqb_refl; simpl;
      try lia;
      repeat match goal with
             | |- context [(?a <? ?b)%Z] => destruct (Z.ltb_spec a b); try lia
             end; simpl; rewrite ?jeqb_refl; reflexivity.
  - destruct (Z.ltb_spec t1 t2); try lia. reflexivity.
Qed.

Lemma find_map_id (id : jstring) (h : Conversation -> Conversation) (l : list Conversation) :
  (forall c, c_id (h c) = c_id c) ->
  find (fun c => jeqb (c_id c) id) (map h l)
  = option_map h (find (fun c => jeqb (c_id c) id) l).
Proof.
  intros Hh. induction l as [|c r IH]; simpl; [reflexivity|].
  rewrite Hh. destruct (jeqb (c_id c) id); [reflexivity | exact IH].
Qed.

Lemma find_id_some (id : jstring) (l : list Conversation) (c : Conversation) :
  find (fun c => jeqb (c_id c) id) l = Some c -> c_id c = id.
Proof.
  intros H. apply find_some in H as [_ H]. apply jeqb_eq. exact H.
Qed.

(** One conditional update, read back through the document's [_id]. *)
Lemma lookupId_updateLastMessage (db : Db) (id p : jstring) (t : Z) (c : Conversation) :
  NoDup (map c_id (conversations db)) ->
  lookupId db id = Some c ->
  lookupId (updateLastMessage db id p t) id
  = Some (if olderThan c t then setLastMessage p t c else c).
Proof.
  intros Hnd Hc. unfold lookupId, updateLastMessage in *. simpl.
  rewrite updateFirst_updatedBy by exact Hnd.
  rewrite find_map_id by (intros; apply updatedBy_id).
  rewrite Hc. simpl. f_equal. unfold updatedBy.
  rewrite (proj2 (jeqb_eq _ _) (find_id_some _ _ Hc)). reflexivity.
Qed.

(** The filter of the conditional update, spelled out. *)
Lemma olderThan_spec (c : Conversation) (t : Z) :
  olderThan c t = true <->
  forall t0, lastMessageTimestamp c = Some t0 -> (t0 < t)%Z.
Proof.
  unfold olderThan. destruct (lastMessageTimestamp c) as [t1|].
  - rewrite Z.ltb_lt. split.
    + intros H t0 E. injection E as <-. exact H.
    + intros H. apply H. reflexivity.
  - split; [intros _ t0 E; discriminate E | reflexivity].
Qed.

(** What one conditional update makes of a document, field by field. *)
Lemma conditional_update_fields (p : jstring) (t : Z) (c : Conversation) :
  let c' := if olderThan c t then setLastMessage p t c else c in
  c_id c' = c_id c /\ employeeId c' = employeeId c
  /\ employeeName c' = employeeName c /\ participantNames c' = participantNames c
  /\ ((lastMessageTimestamp c = None
       \/ exists t0, lastMessageTimestamp c = Some t0 /\ (t0 < t)%Z) ->
      lastMessage c' = trim p /\ lastMessageTimestamp c' = Some t)
  /\ (forall t0, lastMessageTimestamp c = Some t0 -> (t <= t0)%Z -> c' = c).
Proof.
  destruct c as [cid eid en pn lm [t0|]]; unfold olderThan; cbn [lastMessageTimestamp].
  - destruct (Z.ltb_spec t0 t) as [Hlt|Hge]; cbn;
      (split; [reflexivity|]); (split; [reflexivity|]); (split; [reflexivity|]);
      (split; [reflexivity|]); split.
    + intros _. split; reflexivity.
    + intros t1 E Hle. injection E as <-. lia.
    + intros [E|(t1 & E & Hlt)]; [discriminate E|]. injection E as <-. lia.
    + intros; reflexivity.
  - cbn. (split; [reflexivity|]); (split; [reflexivity|]); (split; [reflexivity|]);
      (split; [reflexivity|]); split.
    + intros _. split; reflexivity.
    + intros t1 E. discriminate E.
Qed.

(** A conditional update whose stamp is not later than the conversation's
    leaves the whole database as it was. *)
Lemma updateFirst_unmatched (p : Conversation -> bool) (f : Conversation -> Conversation)
  (l : list Conversation) :
  (forall x, In x l -> p x = false) -> updateFirst p f l = l.
Proof.
  induction l as [|x r IH]; simpl; intros H; [reflexivity|].
  rewrite (H x (or_introl eq_refl)). f_equal. apply IH. intros y Hy. apply H. right. exact Hy.
Qed.

Lemma find_unique_id (l : list Conversation) (id : jstring) (c x : Conversation) :
  NoDup (map c_id l) -> find (fun c => jeqb (c_id c) id) l = Some c ->
  In x l -> c_id x = id -> x = c.
Proof.
  induction l as [|y r IH]; simpl; intros Hnd Hf Hin Hid; [contradiction|].
  inversion Hnd as [|? ? Hnotin Hnd']; subst.
  destruct (jeqb (c_id y) (c_id x)) eqn:E.
  - injection Hf as <-. destruct Hin as [->|Hin]; [reflexivity|].
    apply jeqb_eq in E. exfalso. apply Hnotin. rewrite E. apply in_map. exact Hin.
  - destruct Hin as [->|Hin]; [rewrite jeqb_refl in E; discriminate E|].
    apply IH; auto.
Qed.

Lemma updateLastMessage_lost_race (db : Db) (id p : jstring) (t t0 : Z) (c : Conversation) :
  NoDup (map c_id (conversations db)) ->
  lookupId db id = Some c ->
  lastMessageTimestamp c = Some t0 -> (t <= t0)%Z ->
  updateLastMessage db id p t = db.
Proof.
  intros Hnd Hc Ht Hle. unfold updateLastMessage. destruct db as [convs msgs].
  cbn [conversations messages] in *. f_equal.
  apply updateFirst_unmatched. intros x Hx.
  destruct (jeqb (c_id x) id) eqn:E; [|reflexivity]. apply jeqb_eq in E.
  rewrite (find_unique_id convs x Hnd Hc Hx E).
  unfold olderThan. rewrite Ht. simpl. apply Z.ltb_ge. exact Hle.
Qed.




End MetadataFacts.

(** ** createMessage: the order of the checks and what a failure leaves *)
Section AppendFacts.

Import MessageController.

(** What a successful call of the service has done. *)
Lemma service_createMessage_ok
  (db db' : Db) (cid sid txt : jstring) (atts : list AttachmentInput)
  (now : Z) (nid : N) (m : Message) :
  MessageService.createMessage db cid sid txt atts now nid = (Ok m, db') ->
  exists c,
    resolveConversation db cid = Some c
    /\ validateSenderId sid (participantNames c) = true
    /\ m = newMessage nid (c_id c) sid (trim txt) atts now
    /\ validMessage m = true
    /\ db' = updateLastMessage (mkDb (conversations db) (messages db ++ [m])) (c_id c)
               (substring0 100 (buildLastMessage txt atts)) now.
Proof.
  unfold MessageService.createMessage.
  destruct (resolveConversation db cid) as [c|]; [|discriminate].
  destruct (validateSenderId sid (participantNames c)) eqn:Hv; simpl; [|discriminate].
  unfold save.
  destruct (validMessage (newMessage nid (c_id c) sid (trim txt) atts now)) eqn:Hm;
    [|discriminate].
  intros H. injection H as <- <-. exists c. repeat split; auto.
Qed.

(** A failing call of the service has changed nothing. *)
Lemma service_createMessage_err
  (db db' : Db) (cid sid txt : jstring) (atts : list AttachmentInput)
  (now : Z) (nid : N) (e : AppendError) :
  MessageService.createMessage db cid sid txt atts now nid = (Err e, db') -> db' = db.
Proof.
  unfold MessageService.createMessage.
  destruct (resolveConversation db cid) as [c|]; [|congruence].
  destruct (validateSenderId sid (participantNames c)); simpl; [|congruence].
  destruct (save db _); [discriminate | congruence].
Qed.

(** A request that the controller lets through has passed its checks. *)
Lemma controller_createMessage_ok
  (db db' : Db) (body : Body) (now : Z) (nid : N) (m : Message) :
  createMessage db body now nid = (Ok m, db') ->
  nonEmpty (b_conversationId body) = true
  /\ nonEmpty (b_senderId body) = true
  /\ hasText (b_text body) || hasAttachments (b_attachments body) = true
  /\ checkAttachments (orNil (b_attachments body)) = None
  /\ MessageService.createMessage db (b_conversationId body) (b_senderId body)
       (orEmpty (b_text body)) (orNil (b_attachments body)) now nid = (Ok m, db').
Proof.
  unfold createMessage.
  destruct (nonEmpty (b_conversationId body)); simpl; [|discriminate].
  destruct (nonEmpty (b_senderId body)); simpl; [|discriminate].
  destruct (hasText (b_text body)); simpl.
  - destruct (match b_text body with Some t => _ | None => false end); [discriminate|].
    destruct (checkAttachments (orNil (b_attachments body))); [discriminate|].
    intros H. repeat split; auto.
  - destruct (hasAttachments (b_attachments body)); simpl; [|discriminate].
    destruct (match b_text body with Some t => _ | None => false end); [discriminate|].
    destruct (checkAttachments (orNil (b_attachments body))); [discriminate|].
    intros H. repeat split; auto.
Qed.

(** C10.  Whenever createMessage fails, with any of its errors, the
    database it leaves is the one it found: no message has been added and no
    conversation has been touched. *)
Theorem append_failure_changes_nothing
  (db db' : Db) (body : Body) (now : Z) (nid : N) (e : AppendError) :
  createMessage db body now nid = (Err e, db') ->
  db' = db.
Proof.
  unfold createMessage.
  destruct (negb (nonEmpty (b_conversationId body)) || negb (nonEmpty (b_senderId body)));
    [congruence|].
  destruct (negb (hasText (b_text body)) && negb (hasAttachments (b_attachments body)));
    [congruence|].
  destruct (match b_text body with Some t => _ | None => false end); [congruence|].
  destruct (checkAttachments (orNil (b_attachments body))); [congruence|].
  apply service_createMessage_err.
Qed.

(** C10, an instance: Bob's message into Alice's conversation is refused and
    the seeded database is left as it was. *)
Lemma append_failure_changes_nothing_witness :
  createMessage seeded bobToAlice 100 7 = (Err InvalidSender, seeded)
  /\ snd (createMessage seeded bobToAlice 100 7) = seeded.
Proof.
  split; [reflexivity|].
  apply (append_failure_changes_nothing seeded bobToAlice 100 7 (e := InvalidSender)).
  reflexivity.
Defined.

(** A stored message is only ever added by a call that succeeds. *)
Lemma append_success_adds_one
  (db db' : Db) (body : Body) (now : Z) (nid : N) (m : Message) :
  createMessage db body now nid = (Ok m, db') ->
  messages db' = messages db ++ [m].
Proof.
  intros H. apply controller_createMessage_ok in H as (_ & _ & _ & _ & H).
  apply service_createMessage_ok in H as (c & _ & _ & _ & _ & ->). reflexivity.
Qed.

(** C3 (as amended).  The controller checks the request before the service
    looks the conversation up.  For a conversation identifier that resolves
    to nothing: a request that passes the controller's checks fails with
    ConversationNotFound; a request with both identifiers but blank text and
    no attachment fails with EmptyMessage; and the service itself, which
    looks the conversation up first, always fails with ConversationNotFound.
    None of them changes the database. *)
Theorem unknown_conversation_failure
  (db : Db) (body : Body) (now : Z) (nid : N) :
  resolveConversation db (b_conversationId body) = None ->
  nonEmpty (b_conversationId body) = true ->
  nonEmpty (b_senderId body) = true ->
  (hasText (b_text body) || hasAttachments (b_attachments body) = true ->
   length (trim (orEmpty (b_text body))) <= 1000 ->
   checkAttachments (orNil (b_attachments body)) = None ->
   createMessage db body now nid = (Err ConversationNotFound, db))
  /\ (hasText (b_text body) = false -> hasAttachments (b_attachments body) = false ->
      createMessage db body now nid = (Err EmptyMessage, db))
  /\ (forall sid txt atts,
      MessageService.createMessage db (b_conversationId body) sid txt atts now nid
      = (Err ConversationNotFound, db)).
Proof.
  intros Hres Hc Hs. split; [|split].
  - intros Hne Hlen Hatt. unfold createMessage. rewrite Hc, Hs. simpl.
    replace (negb (hasText (b_text body)) && negb (hasAttachments (b_attachments body)))
      with false
      by (destruct (hasText (b_text body)), (hasAttachments (b_attachments body));
          simpl in *; congruence).
    replace (match b_text body with
             | Some t => nonEmpty t && Nat.ltb 1000 (length (trim t))
             | None => false
             end) with false.
    + rewrite Hatt. unfold MessageService.createMessage. rewrite Hres. reflexivity.
    + destruct (b_text body) as [t|]; [|reflexivity]. simpl in Hlen.
      symmetry. apply andb_false_iff. right. apply Nat.ltb_ge. exact Hlen.
  - intros Ht Ha. unfold createMessage. rewrite Hc, Hs, Ht, Ha. reflexivity.
  - intros sid txt atts. unfold MessageService.createMessage. rewrite Hres. reflexivity.
Qed.

(** C3, an instance: a greeting to a conversation that does not exist. *)
Lemma unknown_conversation_failure_witness :
  createMessage seeded (mkBody (lit "emp_nobody") (lit "hr_sconnor") (Some (lit "Hi")) None) 100 7
  = (Err ConversationNotFound, seeded).
Proof.
  apply (proj1 (unknown_conversation_failure seeded
                  (mkBody (lit "emp_nobody") (lit "hr_sconnor") (Some (lit "Hi")) None)
                  100 7 eq_refl eq_refl eq_refl)).
  - reflexivity.
  - simpl. lia.
  - reflexivity.
Defined.

(** C3 as stated fails: blank text without attachments, sent to a
    conversation that does not exist, is refused as an empty message. *)
Lemma unknown_conversation_blank_is_empty_message :
  resolveConversation seeded (b_conversationId blankToNobody) = None
  /\ fst (createMessage seeded blankToNobody 100 7) <> Err ConversationNotFound.
Proof. split; [reflexivity | vm_compute; discriminate]. Qed.

End AppendFacts.

(** ** The preview of a message *)
Section PreviewFacts.

Import MessageController.

(** The preview that createMessage builds and cuts is the one the
    specification words. *)
Lemma buildLastMessage_spec (txt : jstring) (atts : list AttachmentInput) :
  substring0 100 (buildLastMessage txt atts) = previewSpec txt atts.
Proof.
  unfold substring0, buildLastMessage, previewSpec. f_equal.
  destruct atts as [|a rest]; [reflexivity|].
  unfold followedBy, attachmentSummary, marker.
  replace (length (a :: rest) - 1) with (length rest) by (simpl; lia).
  replace (Nat.ltb 1 (length (a :: rest))) with (Nat.ltb 0 (length rest)) by reflexivity.
  destruct rest as [|b rest]; simpl length; simpl Nat.ltb; cbv iota;
    destruct (jeqb (in_type a) (lit "image")); destruct (trim txt);
    simpl nonEmpty; cbv iota; unfold moreSuffix; rewrite ?app_nil_r; reflexivity.
Qed.

Lemma previewSpec_length (txt : jstring) (atts : list AttachmentInput) :
  length (previewSpec txt atts) <= 100.
Proof. unfold previewSpec. apply firstn_le_length. Qed.

(** Scenarios of the specification. *)
Example preview_one_image :
  forall url size ref,
    substring0 100 (buildLastMessage []
      [mkAttachmentInput url (lit "image") (lit "photo.jpg") size ref])
    = CAMERA ++ lit " photo.jpg".
Proof. reflexivity. Qed.

Example preview_two_attachments (txt : jstring) (a b : AttachmentInput) :
  buildLastMessage txt [a; b] = buildLastMessage txt [a] ++ lit " (+1)".
Proof. unfold buildLastMessage. simpl length. simpl Nat.ltb. cbv iota. reflexivity. Qed.

Example preview_text_only :
  substring0 100 (buildLastMessage (lit "  Hi Alice ") []) = lit "Hi Alice".
Proof. reflexivity. Qed.

Lemma lookupId_of_member (db : Db) (c : Conversation) :
  NoDup (map c_id (conversations db)) -> In c (conversations db) ->
  lookupId db (c_id c) = Some c.
Proof.
  unfold lookupId. induction (conversations db) as [|x r IH]; simpl; intros Hnd Hin;
    [contradiction|].
  inversion Hnd as [|? ? Hnotin Hnd']; subst.
  destruct Hin as [->|Hin]; [rewrite jeqb_refl; reflexivity|].
  destruct (jeqb (c_id x) (c_id c)) eqn:E; [|apply IH; assumption].
  apply jeqb_eq in E. exfalso. apply Hnotin. rewrite E. apply in_map. exact Hin.
Qed.

Lemma resolveConversation_member (db : Db) (key : jstring) (c : Conversation) :
  resolveConversation db key = Some c -> In c (conversations db).
Proof.
  unfold resolveConversation, findOneByEmployeeId, findById, lookupId.
  destruct (find _ (conversations db)) eqn:E.
  - intros H. injection H as <-. apply find_some in E. apply E.
  - destruct (looksLikeObjectId key); [|discriminate].
    intros H. apply find_some in H. apply H.
Qed.

(** What an accepted request leaves in the database. *)
Lemma accepted_message_update
  (db db' : Db) (body : Body) (now : Z) (nid : N) (m : Message) :
  NoDup (map c_id (conversations db)) ->
  createMessage db body now nid = (Ok m, db') ->
  exists c,
    resolveConversation db (b_conversationId body) = Some c
    /\ m = newMessage nid (c_id c) (b_senderId body) (trim (orEmpty (b_text body)))
             (orNil (b_attachments body)) now
    /\ db' = updateLastMessage (mkDb (conversations db) (messages db ++ [m])) (c_id c)
               (substring0 100
                  (buildLastMessage (orEmpty (b_text body)) (orNil (b_attachments body))))
               (timestamp m)
    /\ lookupId db' (c_id c)
       = Some (if olderThan c (timestamp m)
               then setLastMessage
                      (substring0 100
                         (buildLastMessage (orEmpty (b_text body))
                            (orNil (b_attachments body))))
                      (timestamp m) c
               else c).
Proof.
  intros Hnd H. apply controller_createMessage_ok in H as (_ & _ & _ & _ & H).
  apply service_createMessage_ok in H as (c & Hres & _ & Hm & _ & Hdb).
  exists c.
  assert (Hts : timestamp m = now) by (rewrite Hm; reflexivity).
  rewrite Hts. split; [exact Hres|]. split; [exact Hm|]. split; [exact Hdb|].
  rewrite Hdb. apply lookupId_updateLastMessage; [exact Hnd|].
  apply lookupId_of_member; [exact Hnd|].
  apply resolveConversation_member with (key := b_conversationId body). exact Hres.
Qed.




(** The cut counts UTF-16 code units: of 51 camera glyphs, two code units
    each, the first 50 are kept. *)
Example preview_counts_code_units :
  length (concat (repeat CAMERA 51)) = 102
  /\ previewSpec (concat (repeat CAMERA 51)) [] = concat (repeat CAMERA 50).
Proof. split; reflexivity. Qed.

(** The scenarios of the specification, as stored. *)
Example stored_preview_one_image :
  forall url size ref,
    trim (previewSpec [] [mkAttachmentInput url (lit "image") (lit "photo.jpg") size ref])
    = CAMERA ++ lit " photo.jpg".
Proof. reflexivity. Qed.

Example stored_preview_two_attachments :
  trim (previewSpec [] [photo; report]) = trim (previewSpec [] [photo]) ++ lit " (+1)".
Proof. reflexivity. Qed.

Example preview_two_files :
  previewSpec [] [photo; report] = CAMERA ++ lit " photo.jpg (+1)".
Proof. reflexivity. Qed.

End PreviewFacts.

(** ** Ordered retrieval *)
Section ListingFacts.

Lemma insertByTimestamp_In (m x : Message) (l : list Message) :
  In x (insertByTimestamp m l) <-> x = m \/ In x l.
Proof.
  induction l as [|y r IH]; simpl.
  - intuition congruence.
  - destruct (timestamp m <=? timestamp y)%Z; simpl; rewrite ?IH; intuition congruence.
Qed.

Lemma sortByTimestamp_In (x : Message) (l : list Message) :
  In x (sortByTimestamp l) <-> In x l.
Proof.
  induction l as [|y r IH]; simpl; [reflexivity|].
  rewrite insertByTimestamp_In, IH. intuition congruence.
Qed.

Lemma insertByTimestamp_sorted (m : Message) (l : list Message) :
  StronglySorted byTimestamp l -> StronglySorted byTimestamp (insertByTimestamp m l).
Proof.
  induction 1 as [|y r Hs IH Hy]; simpl.
  - constructor; constructor.
  - destruct (Z.leb_spec (timestamp m) (timestamp y)).
    + constructor; [constructor; assumption|].
      constructor; [unfold byTimestamp; lia|].
      eapply Forall_impl; [|exact Hy]. unfold byTimestamp. intros; lia.
    + constructor; [exact IH|].
      apply Forall_forall. intros x Hx. apply insertByTimestamp_In in Hx as [->|Hx].
      * unfold byTimestamp. lia.
      * rewrite Forall_forall in Hy. apply Hy. exact Hx.
Qed.

Lemma sortByTimestamp_sorted (l : list Message) :
  StronglySorted byTimestamp (sortByTimestamp l).
Proof.
  induction l as [|m r IH]; simpl; [constructor|].
  apply insertByTimestamp_sorted. exact IH.
Qed.

Lemma sortByTimestamp_length (l : list Message) :
  length (sortByTimestamp l) = length l.
Proof.
  assert (Hins : forall m k, length (insertByTimestamp m k) = S (length k)).
  { intros m k. induction k as [|y r IH]; simpl; [reflexivity|].
    destruct (timestamp m <=? timestamp y)%Z; simpl; [reflexivity | rewrite IH; reflexivity]. }
  induction l as [|m r IH]; simpl; [reflexivity|]. rewrite Hins, IH. reflexivity.
Qed.

(** Whatever the conversation, the list that getMessagesByConversationId
    returns is in ascending order of time stamp. *)
Lemma getMessages_sorted (db : Db) (key : jstring) (l : list Message) :
  MessageService.getMessagesByConversationId db key = Ok l ->
  StronglySorted byTimestamp l.
Proof.
  unfold MessageService.getMessagesByConversationId.
  destruct (resolveConversation db key); [|discriminate].
  intros H. injection H as <-. apply sortByTimestamp_sorted.
Qed.

(** The conditional update keeps every document findable under the same
    keys. *)
Lemma find_updateFirst (q p : Conversation -> bool) (f : Conversation -> Conversation)
  (l : list Conversation) :
  (forall x, q (f x) = q x) -> (forall x, c_id (f x) = c_id x) ->
  option_map c_id (find q (updateFirst p f l)) = option_map c_id (find q l).
Proof.
  intros Hq Hid. induction l as [|x r IH]; simpl; [reflexivity|].
  destruct (p x); simpl.
  - rewrite Hq. destruct (q x); simpl; [rewrite Hid|]; reflexivity.
  - destruct (q x); [reflexivity | exact IH].
Qed.

Lemma resolveConversation_after_update
  (convs : list Conversation) (msgs msgs' : list Message) (id pv key : jstring) (ts : Z) :
  option_map c_id (resolveConversation (updateLastMessage (mkDb convs msgs') id pv ts) key)
  = option_map c_id (resolveConversation (mkDb convs msgs) key).
Proof.
  unfold resolveConversation, findOneByEmployeeId, findById, lookupId, updateLastMessage.
  simpl.
  pose proof (find_updateFirst (fun c => jeqb (employeeId c) (trim key))
                (fun c => jeqb (c_id c) id && olderThan c ts) (setLastMessage pv ts) convs
                (fun _ => eq_refl) (fun _ => eq_refl)) as He.
  pose proof (find_updateFirst (fun c => jeqb (c_id c) (toLowerCase key))
                (fun c => jeqb (c_id c) id && olderThan c ts) (setLastMessage pv ts) convs
                (fun _ => eq_refl) (fun _ => eq_refl)) as Hi.
  destruct (find (fun c => jeqb (employeeId c) (trim key)) (updateFirst _ _ convs)),
           (find (fun c => jeqb (employeeId c) (trim key)) convs);
    simpl in He; try discriminate He; try exact He.
  destruct (looksLikeObjectId key); [exact Hi | reflexivity].
Qed.

(** A message that createMessage has returned is listed afterwards, and the
    listing is in time-stamp order. *)
Lemma listed_after_append
  (db db' : Db) (body : MessageController.Body) (now : Z) (nid : N) (m : Message) :
  MessageController.createMessage db body now nid = (Ok m, db') ->
  exists l,
    MessageController.getMessagesByConversationId db' (MessageController.b_conversationId body)
    = Ok l
    /\ StronglySorted byTimestamp l /\ In m l.
Proof.
  intros H. apply controller_createMessage_ok in H as (_ & _ & _ & _ & H).
  apply service_createMessage_ok in H as (c & Hres & _ & Hm & _ & Hdb).
  unfold MessageController.getMessagesByConversationId,
    MessageService.getMessagesByConversationId.
  pose proof (resolveConversation_after_update (conversations db) (messages db)
                (messages db ++ [m]) (c_id c)
                (substring0 100 (buildLastMessage
                   (MessageController.orEmpty (MessageController.b_text body))
                   (MessageController.orNil (MessageController.b_attachments body))))
                (MessageController.b_conversationId body) now) as Hkeep.
  rewrite <- Hdb in Hkeep.
  replace (mkDb (conversations db) (messages db)) with db in Hkeep by (destruct db; reflexivity).
  rewrite Hres in Hkeep. simpl in Hkeep.
  destruct (resolveConversation db' (MessageController.b_conversationId body)) as [c'|];
    [|discriminate Hkeep].
  simpl in Hkeep. injection Hkeep as Hid.
  eexists. split; [reflexivity|]. split; [apply sortByTimestamp_sorted|].
  apply sortByTimestamp_In. unfold findMessagesOf. apply filter_In. split.
  - rewrite Hdb. simpl. apply in_or_app. right. left. reflexivity.
  - rewrite Hid, Hm. simpl. apply jeqb_refl.
Qed.

End ListingFacts.

(** ** Accepted requests *)
Section AcceptFacts.

Import MessageController.

(** An identifier that validateSenderId accepts is the HR identifier or
    starts with the employee prefix. *)
Lemma validateSenderId_shape (sid : jstring) (names : list jstring) :
  validateSenderId sid names = true ->
  sid = HR_SENDER_ID \/ exists x, sid = lit "emp_" ++ x.
Proof.
  unfold validateSenderId. destruct (Nat.ltb (length names) 2); [discriminate|].
  cbv zeta.
  destruct (nonEmpty (nth 0 names []) && isHRName (nth 0 names []) && jeqb sid HR_SENDER_ID) eqn:E1.
  - intros _. left. apply andb_true_iff in E1 as [_ E]. apply jeqb_eq. exact E.
  - destruct (nonEmpty (nth 1 names []) && jeqb sid (lit "emp_" ++ slug (nth 1 names []))) eqn:E2;
      [|discriminate].
    intros _. right. apply andb_true_iff in E2 as [_ E]. apply jeqb_eq in E. eauto.
Qed.

Lemma validateSenderId_trimmed (sid : jstring) (names : list jstring) :
  validateSenderId sid names = true ->
  nonEmpty sid = true /\ nonEmpty (trim sid) = true.
Proof.
  intros H. apply validateSenderId_shape in H as [->|[x ->]];
    (split; [reflexivity | apply trim_nonEmpty; reflexivity]).
Qed.

Lemma checkAttachment_valid (a : AttachmentInput) :
  checkAttachment a = None -> validAttachment (castAttachment a) = true.
Proof.
  unfold checkAttachment, validAttachment, castAttachment. simpl.
  destruct (nonEmpty (in_url a)), (nonEmpty (in_type a)), (nonEmpty (in_name a));
    simpl; try discriminate.
  destruct (jeqb (in_type a) (lit "image") || jeqb (in_type a) (lit "file"));
    simpl; [reflexivity | discriminate].
Qed.

Lemma checkAttachments_valid (l : list AttachmentInput) :
  checkAttachments l = None -> forallb validAttachment (map castAttachment l) = true.
Proof.
  induction l as [|a r IH]; simpl; [reflexivity|].
  destruct (checkAttachment a) eqn:E; [discriminate|].
  intros H. rewrite (checkAttachment_valid _ E), (IH H). reflexivity.
Qed.

Lemma looksLikeObjectId_nonEmpty (s : jstring) :
  looksLikeObjectId s = true -> nonEmpty s = true.
Proof.
  unfold looksLikeObjectId. destruct s; [discriminate | reflexivity].
Qed.

Lemma wfDb_member (db : Db) (c : Conversation) :
  wfDb db = true -> In c (conversations db) -> wfConversation c = true.
Proof.
  unfold wfDb. intros H Hin. apply andb_true_iff in H as [H _].
  apply andb_true_iff in H as [H _]. rewrite forallb_forall in H. apply H. exact Hin.
Qed.

(** In a well-formed database, a key that resolves is not empty. *)
Lemma resolved_key_nonEmpty (db : Db) (key : jstring) (c : Conversation) :
  wfDb db = true -> resolveConversation db key = Some c -> nonEmpty key = true.
Proof.
  intros Hwf. unfold resolveConversation, findOneByEmployeeId.
  destruct (find _ (conversations db)) as [c0|] eqn:E.
  - intros _. apply find_some in E as [Hin E]. apply jeqb_eq in E.
    apply (wfDb_member _ _ Hwf) in Hin. unfold wfConversation in Hin.
    apply andb_true_iff in Hin as [_ Hin]. rewrite E in Hin.
    apply nonEmpty_true, trim_nonEmpty_source, nonEmpty_true. exact Hin.
  - destruct (looksLikeObjectId key) eqn:L; [|discriminate].
    intros _. apply looksLikeObjectId_nonEmpty. exact L.
Qed.

(** A request that passes every check is accepted by createMessage. *)
Lemma createMessage_accepts
  (db : Db) (body : Body) (now : Z) (nid : N) (c : Conversation) :
  nonEmpty (b_conversationId body) = true ->
  resolveConversation db (b_conversationId body) = Some c ->
  validateSenderId (b_senderId body) (participantNames c) = true ->
  hasText (b_text body) || hasAttachments (b_attachments body) = true ->
  length (trim (orEmpty (b_text body))) <= 1000 ->
  checkAttachments (orNil (b_attachments body)) = None ->
  exists m db', createMessage db body now nid = (Ok m, db').
Proof.
  intros Hkey Hres Hval Hne Hlen Hatt.
  destruct (validateSenderId_trimmed _ _ Hval) as [Hsid Htrim].
  unfold createMessage. rewrite Hkey, Hsid. simpl.
  replace (negb (hasText (b_text body)) && negb (hasAttachments (b_attachments body)))
    with false
    by (destruct (hasText (b_text body)), (hasAttachments (b_attachments body));
        simpl in *; congruence).
  replace (match b_text body with
           | Some t => nonEmpty t && Nat.ltb 1000 (length (trim t))
           | None => false
           end) with false.
  2:{ destruct (b_text body) as [t|]; [|reflexivity]. simpl in Hlen.
      symmetry. apply andb_false_iff. right. apply Nat.ltb_ge. exact Hlen. }
  rewrite Hatt. unfold MessageService.createMessage. rewrite Hres, Hval. simpl.
  unfold save, validMessage, newMessage. simpl.
  rewrite Htrim, (checkAttachments_valid _ Hatt).
  replace (Nat.leb (length (trim (trim (orEmpty (b_text body))))) 1000) with true.
  - simpl. eauto.
  - symmetry. apply Nat.leb_le. etransitivity; [apply trim_length | exact Hlen].
Qed.

(** C5 (as amended).  In a well-formed database, a request for an existing
    conversation from a sender that validateSenderId accepts, whose text is
    not blank or which carries at least one attachment, whose trimmed text
    has at most 1000 code units and whose attachments are well formed, is
    accepted; listing the conversation afterwards returns the messages in
    ascending order of time stamp, the new message among them. *)
Theorem append_then_list
  (db : Db) (body : Body) (now : Z) (nid : N) (c : Conversation) :
  wfDb db = true ->
  resolveConversation db (b_conversationId body) = Some c ->
  validateSenderId (b_senderId body) (participantNames c) = true ->
  hasText (b_text body) || hasAttachments (b_attachments body) = true ->
  length (trim (orEmpty (b_text body))) <= 1000 ->
  checkAttachments (orNil (b_attachments body)) = None ->
  exists m db',
    createMessage db body now nid = (Ok m, db')
    /\ exists l,
         getMessagesByConversationId db' (b_conversationId body) = Ok l
         /\ StronglySorted byTimestamp l /\ In m l.
Proof.
  intros Hwf Hres Hval Hne Hlen Hatt.
  destruct (createMessage_accepts db body now nid
              (resolved_key_nonEmpty _ _ Hwf Hres) Hres Hval Hne Hlen Hatt)
    as (m & db' & H).
  exists m, db'. split; [exact H|]. apply listed_after_append with (1 := H).
Qed.

(** C5, an instance: HR greets Alice in the seeded database. *)
Lemma append_then_list_witness :
  exists m db',
    createMessage seeded hiAlice 100 7 = (Ok m, db')
    /\ exists l,
         getMessagesByConversationId db' (b_conversationId hiAlice) = Ok l
         /\ StronglySorted byTimestamp l /\ In m l.
Proof.
  apply (append_then_list seeded hiAlice 100 7 (c := alice)
           eq_refl eq_refl eq_refl eq_refl).
  - simpl. lia.
  - reflexivity.
Defined.

(** C5 as stated fails: a text of three spaces is not empty, and yet the
    request of a valid sender to an existing conversation is refused. *)
Lemma append_refuses_blank_text :
  (exists t, b_text blanksFromAlice = Some t /\ t <> [])
  /\ validateSenderId (b_senderId blanksFromAlice) (participantNames alice) = true
  /\ resolveConversation seeded (b_conversationId blanksFromAlice) = Some alice
  /\ createMessage seeded blanksFromAlice 100 7 = (Err EmptyMessage, seeded).
Proof.
  split; [exists (lit "   "); split; [reflexivity | discriminate]|].
  repeat split; reflexivity.
Qed.

(** C9.  A message that createMessage has accepted is returned by the
    listing of its conversation, and it carries as many attachments as the
    request, in the same order, each with the request's [url], [type],
    [name] and [publicId] and with the request's [size] (0, the default of
    the schema, when the request gave none). *)
Theorem attachments_round_trip
  (db db' : Db) (body : Body) (now : Z) (nid : N) (m : Message) :
  createMessage db body now nid = (Ok m, db') ->
  (exists l,
     getMessagesByConversationId db' (b_conversationId body) = Ok l /\ In m l)
  /\ length (attachments m) = length (orNil (b_attachments body))
  /\ forall i a,
       nth_error (orNil (b_attachments body)) i = Some a ->
       exists a',
         nth_error (attachments m) i = Some a'
         /\ att_url a' = in_url a /\ att_type a' = in_type a
         /\ att_name a' = in_name a /\ att_publicId a' = in_publicId a
         /\ att_size a' = match in_size a with Some n => n | None => 0%N end.
Proof.
  intros H. split; [|split].
  - destruct (listed_after_append _ _ _ _ H) as (l & Hl & _ & Hin). eauto.
  - apply controller_createMessage_ok in H as (_ & _ & _ & _ & H).
    apply service_createMessage_ok in H as (c & _ & _ & -> & _). simpl.
    apply length_map.
  - intros i a Hi.
    apply controller_createMessage_ok in H as (_ & _ & _ & _ & H).
    apply service_createMessage_ok in H as (c & _ & _ & -> & _). simpl.
    exists (castAttachment a). split.
    + apply map_nth_error. exact Hi.
    + repeat split; reflexivity.
Qed.

(** C9, an instance: the photo and the report of Alice. *)
Lemma attachments_round_trip_witness :
  (exists l,
     getMessagesByConversationId (snd (createMessage seeded twoFiles 100 7))
       (b_conversationId twoFiles) = Ok l
     /\ In twoFilesStored l)
  /\ length (attachments twoFilesStored) = length (orNil (b_attachments twoFiles))
  /\ forall i a,
       nth_error (orNil (b_attachments twoFiles)) i = Some a ->
       exists a',
         nth_error (attachments twoFilesStored) i = Some a'
         /\ att_url a' = in_url a /\ att_type a' = in_type a
         /\ att_name a' = in_name a /\ att_publicId a' = in_publicId a
         /\ att_size a' = match in_size a with Some n => n | None => 0%N end.
Proof.
  apply (attachments_round_trip (db' := snd (createMessage seeded twoFiles 100 7))
           (m := twoFilesStored) seeded twoFiles 100 7 eq_refl).
Defined.

End AcceptFacts.

(** ** Lookup by employee key or by [_id] *)
Section LookupFacts.

Import MessageController.

Lemma lowerUnit_lowerHex (c : N) : isLowerHexUnit c = true -> lowerUnit c = [c].
Proof.
  unfold isLowerHexUnit, lowerUnit. intros H.
  destruct (N.leb_spec 65 c), (N.leb_spec c 90); simpl;
    destruct (N.eqb_spec c 304), (N.eqb_spec c 8490); simpl; try reflexivity;
    exfalso;
    destruct (N.leb_spec 48 c), (N.leb_spec c 57), (N.leb_spec 97 c), (N.leb_spec c 102);
    simpl in H; try discriminate H; lia.
Qed.

Lemma toLowerCase_lowerHex (s : jstring) :
  forallb isLowerHexUnit s = true -> toLowerCase s = s.
Proof.
  unfold toLowerCase. induction s as [|c r IH]; simpl; [reflexivity|].
  intros H. apply andb_true_iff in H as [Hc Hr].
  rewrite (lowerUnit_lowerHex _ Hc), (IH Hr). reflexivity.
Qed.

Lemma isLowerHexUnit_hex (c : N) : isLowerHexUnit c = true -> isHexUnit c = true.
Proof.
  unfold isLowerHexUnit, isHexUnit. intros H.
  apply orb_true_iff in H as [H|H]; rewrite H; simpl; [reflexivity|].
  apply orb_true_r.
Qed.

Lemma isObjectIdText_looksLike (s : jstring) :
  isObjectIdText s = true -> looksLikeObjectId s = true.
Proof.
  unfold isObjectIdText, looksLikeObjectId. intros H.
  apply andb_true_iff in H as [Hl Hh]. rewrite Hl. simpl.
  apply forallb_forall. intros c Hc. apply isLowerHexUnit_hex.
  rewrite forallb_forall in Hh. apply Hh. exact Hc.
Qed.

Lemma isLowerHexUnit_noWs (c : N) : isLowerHexUnit c = true -> isWhiteSpace c = false.
Proof.
  unfold isLowerHexUnit. rewrite orb_true_iff, !andb_true_iff, !N.leb_le.
  intros H. unfold isWhiteSpace. destruct H as [H|H]; settle_cmp; reflexivity.
Qed.

(** The text of an ObjectId has no white space to trim. *)
Lemma trim_objectIdText (s : jstring) : isObjectIdText s = true -> trim s = s.
Proof.
  unfold isObjectIdText. intros H. apply andb_true_iff in H as [_ H].
  apply trim_noWs. apply forallb_forall. intros c Hc.
  rewrite forallb_forall in H. rewrite (isLowerHexUnit_noWs _ (H c Hc)). reflexivity.
Qed.

Lemma find_by_employeeId_member (l : list Conversation) (c : Conversation) :
  NoDup (map employeeId l) -> In c l ->
  find (fun x => jeqb (employeeId x) (employeeId c)) l = Some c.
Proof.
  induction l as [|x r IH]; simpl; intros Hnd Hin; [contradiction|].
  inversion Hnd as [|? ? Hnotin Hnd']; subst.
  destruct Hin as [->|Hin]; [rewrite jeqb_refl; reflexivity|].
  destruct (jeqb (employeeId x) (employeeId c)) eqn:E; [|apply IH; assumption].
  apply jeqb_eq in E. exfalso. apply Hnotin. rewrite E. apply in_map. exact Hin.
Qed.

Lemma wfDb_ids (db : Db) : wfDb db = true -> NoDup (map c_id (conversations db)).
Proof.
  unfold wfDb. intros H. apply andb_true_iff in H as [H _].
  apply andb_true_iff in H as [_ H]. apply distinct_NoDup. exact H.
Qed.

Lemma wfDb_employeeIds (db : Db) :
  wfDb db = true -> NoDup (map employeeId (conversations db)).
Proof.
  unfold wfDb. intros H. apply andb_true_iff in H as [_ H].
  apply distinct_NoDup. exact H.
Qed.

(** Both keys of a conversation resolve to it, unless its [_id] is somebody's
    employee key.  The employee key is stored trimmed. *)
Lemma resolve_both_keys (db : Db) (c : Conversation) :
  wfDb db = true -> In c (conversations db) ->
  trim (employeeId c) = employeeId c ->
  findOneByEmployeeId db (c_id c) = None ->
  resolveConversation db (employeeId c) = Some c
  /\ resolveConversation db (c_id c) = Some c.
Proof.
  intros Hwf Hin Htrim Hfree. unfold resolveConversation. split.
  - unfold findOneByEmployeeId. rewrite Htrim.
    rewrite (find_by_employeeId_member _ _ (wfDb_employeeIds _ Hwf) Hin). reflexivity.
  - rewrite Hfree.
    pose proof (wfDb_member _ _ Hwf Hin) as Hc. unfold wfConversation in Hc.
    apply andb_true_iff in Hc as [Hid _].
    rewrite (isObjectIdText_looksLike _ Hid). unfold findById.
    unfold isObjectIdText in Hid. apply andb_true_iff in Hid as [_ Hhex].
    rewrite (toLowerCase_lowerHex _ Hhex).
    apply lookupId_of_member; [apply wfDb_ids; exact Hwf | exact Hin].
Qed.

(** C6 (as amended).  In a well-formed database, for every conversation [c]
    whose employee key is stored trimmed, as the schema stores it, and whose
    [_id] is not the employee key of any conversation, the employee key of
    [c] and the text of its [_id] both resolve to [c], the key being looked
    up as an employee key first; listing and appending behave the same under
    either. *)
Theorem key_and_id_resolve_alike (db : Db) (c : Conversation) :
  wfDb db = true ->
  In c (conversations db) ->
  trim (employeeId c) = employeeId c ->
  findOneByEmployeeId db (c_id c) = None ->
  resolveConversation db (employeeId c) = Some c
  /\ findOneByEmployeeId db (employeeId c) = Some c
  /\ resolveConversation db (c_id c) = Some c
  /\ getMessagesByConversationId db (employeeId c) = getMessagesByConversationId db (c_id c)
  /\ forall sid txt atts now nid,
       createMessage db (mkBody (employeeId c) sid txt atts) now nid
       = createMessage db (mkBody (c_id c) sid txt atts) now nid.
Proof.
  intros Hwf Hin Htrim Hfree.
  destruct (resolve_both_keys db c Hwf Hin Htrim Hfree) as [Hk Hi].
  pose proof (resolved_key_nonEmpty _ _ Hwf Hk) as Hnk.
  pose proof (resolved_key_nonEmpty _ _ Hwf Hi) as Hni.
  split; [exact Hk|]. split.
  - unfold findOneByEmployeeId. rewrite Htrim.
    apply find_by_employeeId_member; [apply wfDb_employeeIds; exact Hwf | exact Hin].
  - split; [exact Hi|]. split.
    + unfold getMessagesByConversationId, MessageService.getMessagesByConversationId.
      rewrite Hk, Hi. reflexivity.
    + intros sid txt atts now nid. unfold createMessage. simpl.
      rewrite Hnk, Hni. unfold MessageService.createMessage. rewrite Hk, Hi. reflexivity.
Qed.

(** C6, an instance: Alice's conversation in the seeded database. *)
Lemma key_and_id_resolve_alike_witness :
  resolveConversation seeded (lit "emp_alice_johnson") = Some alice
  /\ resolveConversation seeded aliceId = Some alice.
Proof.
  pose proof (key_and_id_resolve_alike seeded alice eq_refl (or_introl eq_refl)
                eq_refl eq_refl)
    as (Hk & _ & Hi & _).
  split; [exact Hk | exact Hi].
Defined.

(** The filter is trimmed: a padded key resolves like the key itself. *)
Example padded_key_resolves :
  resolveConversation seeded (lit "  emp_alice_johnson ") = Some alice.
Proof. reflexivity. Qed.

(** C6 as stated fails: when the text of Alice's [_id] is the employee key
    of another conversation, that conversation is what the [_id] resolves
    to, because the employee key is tried first. *)
Lemma id_shadowed_by_employee_key :
  In alice (conversations shadowed)
  /\ resolveConversation shadowed (employeeId alice) = Some alice
  /\ resolveConversation shadowed (c_id alice) <> Some alice.
Proof.
  split; [left; reflexivity|]. split; [reflexivity|]. vm_compute. discriminate.
Qed.

End LookupFacts.

(** ** Fan-out on the Message change stream *)
Section FanoutFacts.

Import ChatHandlers.

(** C7 (as amended).  For an insert event of the Message collection: when
    the message and its conversation are found, 'message:new' goes to the
    room of that conversation and 'conversation:updated', with the
    conversation as just read, to the room of all conversations, and one
    line is logged; when the message or its conversation is not found,
    nothing is emitted and nothing is logged; when the query is rejected,
    nothing is emitted and the error is logged.  The listener returns in
    every case. *)
Theorem fanout_on_message_insert (db : Db) (rejected : bool) (change : Change) :
  operationType change = OpInsert ->
  (rejected = false ->
   forall m c,
     findMessageById db (documentKey change) = Some m -> populate db m = Some c ->
     onMessageChange db rejected change
     = [ Emit (lit "conversation:" ++ c_id c) (lit "message:new") (MessagePayload m c);
         Emit (lit "conversations") (lit "conversation:updated") (ConversationPayload c);
         ConsoleLog ([55357%N; 56546%N] ++ lit " Emitted message:new event") ])
  /\ (rejected = false ->
      (findMessageById db (documentKey change) = None
       \/ exists m, findMessageById db (documentKey change) = Some m /\ populate db m = None) ->
      onMessageChange db rejected change = [])
  /\ (rejected = true ->
      onMessageChange db rejected change = [ConsoleError (lit "Error fetching message:")]).
Proof.
  intros Hop. unfold onMessageChange. rewrite Hop. split; [|split].
  - intros -> m c Hm Hc. rewrite Hm, Hc. reflexivity.
  - intros -> [Hm|[m [Hm Hc]]]; rewrite Hm; [reflexivity|]. rewrite Hc. reflexivity.
  - intros ->. reflexivity.
Qed.

Lemma find_app_none (A : Type) (p : A -> bool) (l l' : list A) :
  find p l = None -> find p (l ++ l') = find p l'.
Proof.
  induction l as [|x r IH]; simpl; [reflexivity|].
  destruct (p x); [discriminate | exact IH].
Qed.

(** The insert event of an accepted message always finds the message and
    its conversation: both notifications go out, the second with the
    conversation as the conditional update left it, whether or not the
    update applied. *)
Lemma fanout_after_append
  (db db' : Db) (body : MessageController.Body) (now : Z) (nid : N) (m : Message) :
  NoDup (map c_id (conversations db)) ->
  findMessageById db nid = None ->
  MessageController.createMessage db body now nid = (Ok m, db') ->
  exists c c',
    resolveConversation db (MessageController.b_conversationId body) = Some c
    /\ lookupId db' (c_id c) = Some c'
    /\ onMessageChange db' false (mkChange OpInsert nid)
       = [ Emit (lit "conversation:" ++ c_id c') (lit "message:new") (MessagePayload m c');
           Emit (lit "conversations") (lit "conversation:updated") (ConversationPayload c');
           ConsoleLog ([55357%N; 56546%N] ++ lit " Emitted message:new event") ].
Proof.
  intros Hnd Hfresh H.
  destruct (accepted_message_update db body now nid Hnd H) as (c & Hres & Hm & Hdb & Hlook).
  eexists c, _. split; [exact Hres|]. split; [exact Hlook|].
  assert (Hfind : findMessageById db' nid = Some m).
  { rewrite Hdb. unfold findMessageById, updateLastMessage in *. simpl.
    rewrite (find_app_none _ _ [m] Hfresh). simpl.
    replace (m_id m) with nid by (rewrite Hm; reflexivity).
    rewrite N.eqb_refl. reflexivity. }
  assert (Hpop : populate db' m = lookupId db' (c_id c))
    by (rewrite Hm; reflexivity).
  unfold onMessageChange. simpl. rewrite Hfind, Hpop, Hlook. reflexivity.
Qed.

(** C7, instances: the insert of a message of Bob's conversation, and the
    insert of a message whose conversation is gone. *)
Lemma fanout_on_message_insert_witness :
  onMessageChange (mkDb [bob] [mkMessage 2 bobId (lit "hr_sconnor") (lit "Hi Bob") [] 6])
    false (mkChange OpInsert 2)
  = [ Emit (lit "conversation:" ++ bobId) (lit "message:new")
        (MessagePayload (mkMessage 2 bobId (lit "hr_sconnor") (lit "Hi Bob") [] 6) bob);
      Emit (lit "conversations") (lit "conversation:updated") (ConversationPayload bob);
      ConsoleLog ([55357%N; 56546%N] ++ lit " Emitted message:new event") ]
  /\ onMessageChange orphaned false (mkChange OpInsert 1) = [].
Proof.
  split.
  - apply (proj1 (fanout_on_message_insert
                    (mkDb [bob] [mkMessage 2 bobId (lit "hr_sconnor") (lit "Hi Bob") [] 6])
                    false (mkChange OpInsert 2) eq_refl) eq_refl
                 (mkMessage 2 bobId (lit "hr_sconnor") (lit "Hi Bob") [] 6) bob
                 eq_refl eq_refl).
  - apply (proj1 (proj2 (fanout_on_message_insert orphaned false (mkChange OpInsert 1) eq_refl))
                 eq_refl).
    right. exists orphan. split; reflexivity.
Defined.

(** C7 as stated fails: for a message whose conversation has been deleted the
    notifications are dropped, but nothing is logged. *)
Lemma fanout_drop_is_not_logged :
  findMessageById orphaned (documentKey (mkChange OpInsert 1)) = Some orphan
  /\ populate orphaned orphan = None
  /\ logged (onMessageChange orphaned false (mkChange OpInsert 1)) = false.
Proof. repeat split; reflexivity. Qed.

End FanoutFacts.

(** ** More on strings and identifiers *)
Section SlugFacts.

Lemma isSlugUnit_cases (c : N) :
  isSlugUnit c = true -> (97 <= c <= 122)%N \/ (48 <= c <= 57)%N \/ c = 95%N.
Proof.
  unfold isSlugUnit. rewrite !orb_true_iff, !andb_true_iff, !N.leb_le, N.eqb_eq.
  intros [[H|H]|H]; auto.
Qed.

Lemma isSlugUnit_noWs (c : N) : isSlugUnit c = true -> isWhiteSpace c = false.
Proof.
  intros H. apply isSlugUnit_cases in H. unfold isWhiteSpace.
  destruct H as [H|[H|H]]; settle_cmp; reflexivity.
Qed.

Lemma isSlugUnit_lower (c : N) : isSlugUnit c = true -> lowerUnit c = [c].
Proof.
  intros H. apply isSlugUnit_cases in H. unfold lowerUnit.
  destruct H as [H|[H|H]]; settle_cmp; reflexivity.
Qed.

Lemma collapseWs_noWs (b : bool) (s : jstring) :
  forallb (fun c => negb (isWhiteSpace c)) s = true -> collapseWs b s = s.
Proof.
  revert b. induction s as [|c r IH]; simpl; intros b H; [reflexivity|].
  apply andb_true_iff in H as [Hc Hr]. apply negb_true_iff in Hc. rewrite Hc.
  f_equal. apply IH. exact Hr.
Qed.

Lemma slugUnits_noWs (s : jstring) :
  forallb isSlugUnit s = true -> forallb (fun c => negb (isWhiteSpace c)) s = true.
Proof.
  intros H. apply forallb_forall. intros c Hc. rewrite forallb_forall in H.
  apply negb_true_iff, isSlugUnit_noWs, H, Hc.
Qed.

Lemma toLowerCase_slugUnits (s : jstring) :
  forallb isSlugUnit s = true -> toLowerCase s = s.
Proof.
  unfold toLowerCase. induction s as [|c r IH]; simpl; [reflexivity|].
  intros H. apply andb_true_iff in H as [Hc Hr].
  rewrite (isSlugUnit_lower _ Hc), (IH Hr). reflexivity.
Qed.

Lemma filter_all (A : Type) (p : A -> bool) (l : list A) :
  forallb p l = true -> filter p l = l.
Proof.
  induction l as [|x r IH]; simpl; [reflexivity|].
  intros H. apply andb_true_iff in H as [Hx Hr]. rewrite Hx, (IH Hr). reflexivity.
Qed.

Lemma slug_units (name : jstring) : forallb isSlugUnit (slug name) = true.
Proof.
  unfold slug, stripNonSlug. apply forallb_forall. intros c Hc.
  apply filter_In in Hc. apply Hc.
Qed.

(** A string of [a-z0-9_] is its own slug. *)
Lemma slug_fixed (s : jstring) : forallb isSlugUnit s = true -> slug s = s.
Proof.
  intros H. unfold slug, replaceWhitespaceRuns, stripNonSlug.
  rewrite (toLowerCase_slugUnits _ H), (trim_noWs _ (slugUnits_noWs _ H)),
    (collapseWs_noWs _ _ (slugUnits_noWs _ H)). apply filter_all. exact H.
Qed.

Lemma lowerUnit_idem (c : N) : flat_map lowerUnit (lowerUnit c) = lowerUnit c.
Proof.
  unfold lowerUnit at 2 3.
  destruct ((65 <=? c) && (c <=? 90))%N eqn:E1.
  - apply andb_true_iff in E1 as [A B]. apply N.leb_le in A, B.
    simpl. rewrite app_nil_r. unfold lowerUnit. settle_cmp. reflexivity.
  - destruct (c =? 304)%N eqn:E2; [reflexivity|].
    destruct (c =? 8490)%N eqn:E3; [reflexivity|].
    simpl. rewrite app_nil_r. unfold lowerUnit. rewrite E1, E2, E3. reflexivity.
Qed.

Lemma toLowerCase_idem (s : jstring) : toLowerCase (toLowerCase s) = toLowerCase s.
Proof.
  unfold toLowerCase. induction s as [|c r IH]; simpl; [reflexivity|].
  rewrite flat_map_app, IH, lowerUnit_idem. reflexivity.
Qed.

Lemma toLowerCase_nonEmpty (s : jstring) : nonEmpty (toLowerCase s) = nonEmpty s.
Proof.
  destruct s as [|c r]; [reflexivity|]. unfold toLowerCase. simpl.
  unfold lowerUnit. destruct (_ && _)%bool; [reflexivity|].
  destruct (c =? 304)%N; [reflexivity|]. destruct (c =? 8490)%N; reflexivity.
Qed.

(** X1.  For every non-empty name, generateEmployeeId returns the prefix
    [emp_] followed by units of [a-z0-9_] only: the identifier contains no
    white space, no upper-case letter and no punctuation. *)
Theorem generateEmployeeId_format (name : jstring) :
  name <> [] ->
  startsWith (lit "emp_") (generateEmployeeId name) = true
  /\ forallb isSlugUnit (generateEmployeeId name) = true
  /\ forallb (fun c => negb (isWhiteSpace c)) (generateEmployeeId name) = true.
Proof.
  intros Hne. unfold generateEmployeeId.
  rewrite (proj2 (nonEmpty_true name) Hne). simpl negb. cbv iota.
  assert (Hu : forallb isSlugUnit (lit "emp_" ++ slug name) = true).
  { rewrite forallb_app, slug_units. reflexivity. }
  split; [reflexivity|]. split; [exact Hu | apply slugUnits_noWs; exact Hu].
Qed.

Lemma generateEmployeeId_format_witness :
  startsWith (lit "emp_") (generateEmployeeId (lit "Mary-Ann  O'Neil")) = true
  /\ forallb isSlugUnit (generateEmployeeId (lit "Mary-Ann  O'Neil")) = true
  /\ forallb (fun c => negb (isWhiteSpace c)) (generateEmployeeId (lit "Mary-Ann  O'Neil")) = true.
Proof.
  apply (generateEmployeeId_format (name := lit "Mary-Ann  O'Neil")). discriminate.
Defined.

(** X2.  generateEmployeeId does not see letter case: a name and its
    lower-cased form get the same identifier, so names that differ only in
    case collide. *)
Theorem generateEmployeeId_ignores_case (name : jstring) :
  generateEmployeeId (toLowerCase name) = generateEmployeeId name.
Proof.
  unfold generateEmployeeId, slug.
  rewrite toLowerCase_nonEmpty, toLowerCase_idem. reflexivity.
Qed.

(** X3.  A non-empty string of [a-z0-9_] is kept as it is behind the
    prefix; in particular the part of an identifier after [emp_] generates
    that identifier again. *)
Theorem generateEmployeeId_of_slug (name : jstring) :
  (forallb isSlugUnit name = true -> name <> [] ->
   generateEmployeeId name = lit "emp_" ++ name)
  /\ (slug name <> [] -> generateEmployeeId (slug name) = generateEmployeeId name).
Proof.
  split.
  - intros H Hne. unfold generateEmployeeId.
    rewrite (proj2 (nonEmpty_true name) Hne), (slug_fixed _ H). reflexivity.
  - intros Hs. unfold generateEmployeeId.
    rewrite (proj2 (nonEmpty_true _) Hs), (slug_fixed _ (slug_units name)).
    destruct name as [|c r]; [contradiction Hs; reflexivity | reflexivity].
Qed.

Lemma generateEmployeeId_of_slug_witness :
  generateEmployeeId (lit "alice_johnson") = lit "emp_alice_johnson"
  /\ generateEmployeeId (slug (lit "Alice Johnson")) = generateEmployeeId (lit "Alice Johnson").
Proof.
  split.
  - apply (proj1 (generateEmployeeId_of_slug (lit "alice_johnson"))).
    + reflexivity.
    + discriminate.
  - apply (proj2 (generateEmployeeId_of_slug (lit "Alice Johnson"))). discriminate.
Defined.

End SlugFacts.

(** ** Helpers of the clients *)
Section ClientHelperFacts.

Import MessageController.

Lemma isNotEmpty_hasText (t : jstring) : isNotEmpty t = hasText (Some t).
Proof.
  unfold isNotEmpty, hasText. destruct t as [|c r]; [reflexivity|]. reflexivity.
Qed.

(** X4.  The text checks agree across the layers: the validator of the
    dashboard, the validator of the server and the checks of the controller
    accept the same texts (not blank, at most 1000 code units once trimmed);
    the validator of the mobile client, which counts the untrimmed text, only
    accepts texts that they accept. *)
Theorem text_validators_agree (t : jstring) :
  (validateMessageDashboard t = Valid <->
   hasText (Some t) = true /\ length (trim t) <= 1000)
  /\ (validateMessageServer t = Valid <-> validateMessageDashboard t = Valid)
  /\ (validateMessageMobile t 1000 = Valid -> validateMessageDashboard t = Valid).
Proof.
  assert (Hd : validateMessageDashboard t = Valid <->
               hasText (Some t) = true /\ length (trim t) <= 1000).
  { unfold validateMessageDashboard, hasMaxLength. rewrite isNotEmpty_hasText.
    unfold hasText. destruct t as [|c r]; [simpl; split; [discriminate | intros [H _]; discriminate H]|].
    simpl nonEmpty. simpl andb.
    destruct (Nat.ltb 0 (length (trim (c :: r)))) eqn:E1; simpl;
      [|split; [discriminate | intros [H _]; discriminate H]].
    destruct (Nat.leb_spec (length (trim (c :: r))) 1000); simpl.
    - split; auto.
    - split; [discriminate | intros [_ H']; lia]. }
  split; [exact Hd|]. split.
  - rewrite Hd. unfold validateMessageServer, hasText.
    destruct t as [|c r]; [simpl; split; [discriminate | intros [H _]; discriminate H]|].
    simpl nonEmpty. simpl negb. cbv iota zeta. simpl andb.
    destruct (length (trim (c :: r))) as [|n] eqn:E; simpl Nat.eqb; simpl Nat.ltb at 1; cbv iota.
    + split; [discriminate | intros [H _]; discriminate H].
    + destruct (Nat.ltb_spec 1000 (S n)).
      * split; [discriminate | intros [_ H']; lia].
      * split; [intros _; split; [reflexivity | lia] | reflexivity].
  - rewrite Hd. unfold validateMessageMobile, hasText.
    destruct t as [|c r]; [discriminate|].
    simpl nonEmpty. simpl negb. simpl orb. simpl andb.
    destruct (length (trim (c :: r))) as [|n] eqn:E; simpl Nat.eqb; cbv iota;
      [discriminate|].
    destruct (Nat.ltb_spec 1000 (length (c :: r))); [discriminate|].
    intros _. split; [reflexivity|].
    pose proof (trim_length (c :: r)). lia.
Qed.

Lemma text_validators_agree_witness :
  validateMessageDashboard (lit " Hello ") = Valid.
Proof.
  apply (proj2 (proj2 (text_validators_agree (lit " Hello ")))). reflexivity.
Defined.

(** The mobile validator is stricter than the others: 1000 letters between
    two blanks are refused by it and accepted by the dashboard. *)
Example mobile_validator_counts_blanks :
  validateMessageMobile (lit " " ++ repeat 97%N 1000 ++ lit " ") 1000
    = Invalid (lit "Message cannot exceed 1000 characters")
  /\ validateMessageDashboard (lit " " ++ repeat 97%N 1000 ++ lit " ") = Valid.
Proof. split; vm_compute; reflexivity. Qed.

(** X5.  truncateString with a non-negative bound returns a string of at
    most [maxLength + 3] code units that starts like the given one; a string
    that fits is returned as it is, a longer one is cut to [maxLength] units
    and gets three dots, so the result can be longer than the original. *)
Theorem truncateString_bound (str : jstring) (maxLength : Z) :
  (0 <= maxLength)%Z ->
  (Z.of_nat (length (truncateString str maxLength)) <= maxLength + 3)%Z
  /\ firstn (Z.to_nat maxLength) (truncateString str maxLength)
     = firstn (Z.to_nat maxLength) str
  /\ ((Z.of_nat (length str) <= maxLength)%Z -> truncateString str maxLength = str)
  /\ ((maxLength < Z.of_nat (length str))%Z ->
      Z.of_nat (length (truncateString str maxLength)) = (maxLength + 3)%Z).
Proof.
  intros Hm. unfold truncateString, substring0.
  destruct str as [|c r].
  - simpl. split; [lia|]. split; [reflexivity|]. split; [reflexivity|]. lia.
  - replace (negb (nonEmpty (c :: r))) with false by reflexivity.
    rewrite orb_false_l.
    destruct (Z.leb_spec (Z.of_nat (length (c :: r))) maxLength) as [Hle|Hgt].
    + split; [lia|]. split; [reflexivity|]. split; [reflexivity|]. lia.
    + assert (Hlen : length (firstn (Z.to_nat maxLength) (c :: r)) = Z.to_nat maxLength)
        by (apply firstn_length_le; lia).
      split; [|split; [|split]].
      * rewrite length_app, Hlen. change (length (lit "...")) with 3. lia.
      * rewrite firstn_app, Hlen, Nat.sub_diag. simpl firstn at 2. rewrite app_nil_r.
        rewrite firstn_firstn. f_equal. lia.
      * intros H. lia.
      * intros _. rewrite length_app, Hlen. change (length (lit "...")) with 3. lia.
Qed.

Lemma truncateString_bound_witness :
  (Z.of_nat (length (truncateString (lit "quarterly-report.pdf") 5)) <= 5 + 3)%Z
  /\ firstn (Z.to_nat 5) (truncateString (lit "quarterly-report.pdf") 5)
     = firstn (Z.to_nat 5) (lit "quarterly-report.pdf")
  /\ ((Z.of_nat (length (lit "quarterly-report.pdf")) <= 5)%Z ->
      truncateString (lit "quarterly-report.pdf") 5 = lit "quarterly-report.pdf")
  /\ ((5 < Z.of_nat (length (lit "quarterly-report.pdf")))%Z ->
      Z.of_nat (length (truncateString (lit "quarterly-report.pdf") 5)) = (5 + 3)%Z).
Proof.
  apply (@truncateString_bound (lit "quarterly-report.pdf") 5%Z). lia.
Defined.

Example truncateString_grows :
  truncateString (lit "abcde") 4 = lit "abcd...".
Proof. reflexivity. Qed.

(** X6.  generateColorFromString always returns one of the eight colours of
    its palette, whatever the seed; the index never leaves the array. *)
Theorem generateColorFromString_in_palette (seed : jstring) :
  In (generateColorFromString seed) colors.
Proof.
  unfold generateColorFromString. destruct (nonEmpty seed); simpl negb; cbv iota.
  - apply nth_In. change (length colors) with 8.
    pose proof (Z.mod_pos_bound (Z.abs (hashOf seed)) (Z.of_nat 8) ltac:(simpl; lia)).
    simpl Z.of_nat in *. lia.
  - left. reflexivity.
Qed.

Example generateColorFromString_alice :
  generateColorFromString (lit "Alice Johnson") = lit "#8B5CF6".
Proof. vm_compute. reflexivity. Qed.

(** X30.  The server's generateEmployeeId is the strict variant of the
    clients' helper: it throws exactly for the values that are no non-empty
    string, and for a non-empty string it returns what the clients' helper
    returns; for the empty string the server throws where the clients return
    the empty string. *)
Theorem server_generateEmployeeId_strict (v : jsval) :
  (generateEmployeeIdServer v = None <-> ~ exists s, v = VString s /\ s <> [])
  /\ (forall s, v = VString s -> s <> [] ->
      generateEmployeeIdServer v = Some (generateEmployeeId s))
  /\ (v = VString [] ->
      generateEmployeeIdServer v = None /\ generateEmployeeId [] = []).
Proof.
  split; [|split].
  - unfold generateEmployeeIdServer. destruct v as [| |b|z|s]; cbn [truthy].
    + split; [intros _ (s & E & _); discriminate E | reflexivity].
    + split; [intros _ (s & E & _); discriminate E | reflexivity].
    + split; [intros _ (s & E & _); discriminate E |].
      intros _. destruct b; reflexivity.
    + split; [intros _ (s & E & _); discriminate E |].
      intros _. destruct (negb (negb (z =? 0)%Z)); reflexivity.
    + destruct s as [|c r]; cbn [nonEmpty negb].
      * split; [|reflexivity]. intros _ (s & E & Hs). injection E as <-. contradiction.
      * split; [discriminate|]. intros H. exfalso. apply H. exists (c :: r).
        split; [reflexivity | discriminate].
  - intros s -> Hs. unfold generateEmployeeIdServer, generateEmployeeId.
    destruct s as [|c r]; [contradiction | reflexivity].
  - intros ->. split; reflexivity.
Qed.

(** X30, instances: a seeded name, and the empty name. *)
Lemma server_generateEmployeeId_strict_witness :
  generateEmployeeIdServer (VString (lit "Alice Johnson")) = Some (lit "emp_alice_johnson")
  /\ generateEmployeeIdServer (VString []) = None.
Proof.
  split.
  - apply (proj1 (proj2 (server_generateEmployeeId_strict (VString (lit "Alice Johnson"))))
             (lit "Alice Johnson") eq_refl).
    discriminate.
  - apply (proj2 (proj2 (server_generateEmployeeId_strict (VString []))) eq_refl).
Defined.

End ClientHelperFacts.

(** ** The list of employee names *)
Section UniqueNamesFacts.

Lemma jltb_irrefl (s : jstring) : jltb s s = false.
Proof.
  induction s as [|a s IH]; simpl; [reflexivity|].
  rewrite N.ltb_irrefl, N.eqb_refl, IH. reflexivity.
Qed.

Lemma jltb_trans (a b c : jstring) :
  jltb a b = true -> jltb b c = true -> jltb a c = true.
Proof.
  revert b c. induction a as [|x a IH]; intros [|y b] [|z c]; simpl;
    try discriminate; try reflexivity.
  intros H1 H2.
  apply orb_true_iff in H1 as [H1|H1]; apply orb_true_iff in H2 as [H2|H2].
  - apply N.ltb_lt in H1, H2. apply orb_true_iff. left. apply N.ltb_lt. lia.
  - apply andb_true_iff in H2 as [E _]. apply N.eqb_eq in E. subst z.
    rewrite H1. reflexivity.
  - apply andb_true_iff in H1 as [E _]. apply N.eqb_eq in E. subst y.
    rewrite H2. reflexivity.
  - apply andb_true_iff in H1 as [E1 H1]. apply andb_true_iff in H2 as [E2 H2].
    apply N.eqb_eq in E1, E2. subst. rewrite N.eqb_refl, (IH _ _ H1 H2).
    apply orb_true_r.
Qed.

Lemma jltb_total (a b : jstring) :
  jltb a b = false -> a <> b -> jltb b a = true.
Proof.
  revert b. induction a as [|x a IH]; intros [|y b]; simpl; try discriminate;
    try reflexivity; try congruence.
  intros H Hne. apply orb_false_iff in H as [H1 H2]. apply N.ltb_ge in H1.
  destruct (N.eqb_spec x y) as [->|Hxy].
  - rewrite N.eqb_refl in *. simpl in H2. rewrite (IH _ H2) by congruence.
    apply orb_true_r.
  - apply orb_true_iff. left. apply N.ltb_lt. lia.
Qed.

Lemma insertSorted_In (x y : jstring) (l : list jstring) :
  In y (insertSorted x l) <-> y = x \/ In y l.
Proof.
  induction l as [|z r IH]; simpl.
  - intuition congruence.
  - destruct (jltb z x); simpl; rewrite ?IH; intuition congruence.
Qed.

Lemma sortStrings_In (y : jstring) (l : list jstring) :
  In y (sortStrings l) <-> In y l.
Proof.
  induction l as [|x r IH]; simpl; [reflexivity|].
  rewrite insertSorted_In, IH. intuition congruence.
Qed.

Lemma insertSorted_sorted (x : jstring) (l : list jstring) :
  ~ In x l ->
  StronglySorted (fun a b => jltb a b = true) l ->
  StronglySorted (fun a b => jltb a b = true) (insertSorted x l).
Proof.
  intros Hx Hs. induction Hs as [|y r Hs IH Hy]; simpl.
  - constructor; constructor.
  - destruct (jltb y x) eqn:E.
    + constructor.
      * apply IH. intros Hin. apply Hx. right. exact Hin.
      * apply Forall_forall. intros z Hz. apply insertSorted_In in Hz as [->|Hz];
          [exact E|]. rewrite Forall_forall in Hy. apply Hy. exact Hz.
    + assert (Hxy : jltb x y = true).
      { apply jltb_total; [exact E|]. intros ->. apply Hx. left. reflexivity. }
      constructor; [constructor; assumption|].
      constructor; [exact Hxy|].
      eapply Forall_impl; [|exact Hy]. intros z Hz. simpl in Hz.
      apply jltb_trans with (b := y); assumption.
Qed.

Lemma sortStrings_sorted (l : list jstring) :
  NoDup l -> StronglySorted (fun a b => jltb a b = true) (sortStrings l).
Proof.
  induction 1 as [|x r Hx Hnd IH]; simpl; [constructor|].
  apply insertSorted_sorted; [|exact IH]. rewrite sortStrings_In. exact Hx.
Qed.

Lemma existsb_jeqb (x : jstring) (l : list jstring) :
  existsb (jeqb x) l = true <-> In x l.
Proof.
  rewrite existsb_exists. split.
  - intros [y [Hy E]]. apply jeqb_eq in E. subst. exact Hy.
  - intros H. exists x. split; [exact H | apply jeqb_refl].
Qed.

Lemma unique_In (x : jstring) (seen l : list jstring) :
  In x (unique seen l) <-> In x l /\ ~ In x seen.
Proof.
  revert seen. induction l as [|y r IH]; intros seen; simpl; [tauto|].
  destruct (existsb (jeqb y) seen) eqn:E.
  - apply existsb_jeqb in E. rewrite IH. split.
    + intros [H1 H2]. auto.
    + intros [[->|H1] H2]; [contradiction | auto].
  - assert (Hy : ~ In y seen)
      by (intros H; apply existsb_jeqb in H; congruence).
    simpl. rewrite IH. simpl. split.
    + intros [<-|[H1 H2]]; [auto|]. split; [auto|]. intros H. apply H2. right. exact H.
    + intros [[->|H1] H2]; [auto|].
      destruct (list_eq_dec N.eq_dec y x) as [->|Hne]; [auto|].
      right. split; [exact H1|]. intros [H|H]; [contradiction | contradiction].
Qed.

Lemma unique_NoDup (seen l : list jstring) : NoDup (unique seen l).
Proof.
  revert seen. induction l as [|y r IH]; intros seen; simpl; [constructor|].
  destruct (existsb (jeqb y) seen); [apply IH|].
  constructor; [|apply IH]. rewrite unique_In. intros [_ H]. apply H. left. reflexivity.
Qed.

(** X7.  getUniqueEmployeeNames returns the names of the list that are not
    blank, each of them once, in strictly ascending order of code units;
    a name that is missing, empty or made of white space is left out. *)
Theorem getUniqueEmployeeNames_sorted_set (employeeNames : list jstring) :
  StronglySorted (fun a b => jltb a b = true) (getUniqueEmployeeNames employeeNames)
  /\ NoDup (getUniqueEmployeeNames employeeNames)
  /\ forall name,
       In name (getUniqueEmployeeNames employeeNames)
       <-> In name employeeNames /\ trim name <> [].
Proof.
  unfold getUniqueEmployeeNames. cbv zeta.
  assert (Hs : StronglySorted (fun a b => jltb a b = true)
                 (sortStrings (unique []
                    (filter (fun name => nonEmpty name && Nat.ltb 0 (length (trim name)))
                       employeeNames))))
    by (apply sortStrings_sorted, unique_NoDup).
  split; [exact Hs|]. split.
  - clear - Hs. induction Hs as [|x r Hs IH Hx]; constructor; [|exact IH].
    intros Hin. rewrite Forall_forall in Hx. specialize (Hx _ Hin).
    rewrite jltb_irrefl in Hx. discriminate.
  - intros name. rewrite sortStrings_In, unique_In, filter_In. simpl.
    rewrite andb_true_iff, nonEmpty_true, Nat.ltb_lt. split.
    + intros [[Hin [_ Hl]] _]. split; [exact Hin|]. intros E. rewrite E in Hl.
      simpl in Hl. lia.
    + intros [Hin Ht]. split; [|tauto]. split; [exact Hin|]. split.
      * apply trim_nonEmpty_source. exact Ht.
      * destruct (trim name); [contradiction | simpl; lia].
Qed.

Example getUniqueEmployeeNames_seed :
  getUniqueEmployeeNames
    [lit "Bob Smith"; lit "Alice Johnson"; lit "  "; []; lit "Bob Smith"; lit "Carol Williams"]
  = [lit "Alice Johnson"; lit "Bob Smith"; lit "Carol Williams"].
Proof. reflexivity. Qed.

End UniqueNamesFacts.

(** ** Sender identifiers between the clients and the server *)
Section SenderFacts.

Import MessageController.

Lemma hr_id_is_no_employee_id (x : jstring) : HR_SENDER_ID <> lit "emp_" ++ x.
Proof. discriminate. Qed.

(** An identifier that validateSenderId accepts is the HR identifier or
    the employee identifier of the second name. *)
Lemma validateSenderId_accepted_form (sid : jstring) (names : list jstring) :
  validateSenderId sid names = true ->
  sid = HR_SENDER_ID \/ sid = lit "emp_" ++ slug (nth 1 names []).
Proof.
  unfold validateSenderId. destruct (Nat.ltb (length names) 2); [discriminate|].
  cbv zeta.
  destruct (nonEmpty (nth 0 names []) && isHRName (nth 0 names []) && jeqb sid HR_SENDER_ID) eqn:E1.
  - intros _. left. apply andb_true_iff in E1 as [_ E]. apply jeqb_eq. exact E.
  - destruct (nonEmpty (nth 1 names []) && jeqb sid (lit "emp_" ++ slug (nth 1 names []))) eqn:E2;
      [|discriminate].
    intros _. right. apply andb_true_iff in E2 as [_ E]. apply jeqb_eq in E. exact E.
Qed.

(** An accepted identifier has no white space around it: the [trim] of the
    schema stores it as it is. *)
Lemma validateSenderId_trim (sid : jstring) (names : list jstring) :
  validateSenderId sid names = true -> trim sid = sid.
Proof.
  intros H. apply validateSenderId_accepted_form in H as [->| ->]; [reflexivity|].
  apply trim_noWs, slugUnits_noWs. rewrite forallb_app, slug_units. reflexivity.
Qed.

(** X8.  In a conversation whose first name matches the HR pattern and whose
    second name is a non-empty name that does not, the server accepts a
    sender exactly when the clients attribute its messages to exactly one of
    the two parties: doesSenderIdMatchParticipantName never holds for both
    names, and validateSenderId holds when it holds for one. *)
Theorem accepted_sender_has_one_role (senderId p0 p1 : jstring) :
  isHRName p0 = true -> p1 <> [] -> isHRName p1 = false ->
  validateSenderId senderId [p0; p1]
  = xorb (doesSenderIdMatchParticipantName senderId p0)
         (doesSenderIdMatchParticipantName senderId p1).
Proof.
  intros H0 Hne H1. rewrite validateSenderId_bool.
  unfold doesSenderIdMatchParticipantName.
  rewrite (derive_hr _ H0), (derive_employee Hne H1), H0.
  rewrite (proj2 (nonEmpty_true p0) (isHRName_nonEmpty H0)).
  rewrite (proj2 (nonEmpty_true p1) Hne).
  assert (Hx : jeqb senderId HR_SENDER_ID = true ->
               jeqb senderId (lit "emp_" ++ slug p1) = false).
  { intros E. apply jeqb_eq in E. subst senderId. reflexivity. }
  assert (He : nonEmpty senderId = false ->
               jeqb senderId HR_SENDER_ID = false
               /\ jeqb senderId (lit "emp_" ++ slug p1) = false).
  { destruct senderId; [split; reflexivity | discriminate]. }
  set (b1 := jeqb senderId HR_SENDER_ID) in *.
  set (b2 := jeqb senderId (lit "emp_" ++ slug p1)) in *.
  destruct (nonEmpty senderId).
  - destruct b1, b2; try reflexivity. discriminate (Hx eq_refl).
  - destruct (He eq_refl) as [-> ->]. reflexivity.
Qed.

Lemma accepted_sender_has_one_role_witness :
  validateSenderId (lit "emp_alice_johnson") [lit "Sarah Connor (HR)"; lit "Alice Johnson"]
  = xorb (doesSenderIdMatchParticipantName (lit "emp_alice_johnson") (lit "Sarah Connor (HR)"))
         (doesSenderIdMatchParticipantName (lit "emp_alice_johnson") (lit "Alice Johnson")).
Proof.
  apply (@accepted_sender_has_one_role (lit "emp_alice_johnson")
           (lit "Sarah Connor (HR)") (lit "Alice Johnson")).
  - reflexivity.
  - discriminate.
  - reflexivity.
Defined.

Lemma dashboard_valid_text (t : jstring) :
  validateMessageDashboard t = Valid ->
  hasText (Some t) = true /\ length (trim t) <= 1000.
Proof.
  unfold validateMessageDashboard, hasMaxLength. rewrite isNotEmpty_hasText.
  unfold hasText. destruct t as [|c r]; [discriminate|].
  simpl nonEmpty. simpl andb.
  destruct (Nat.ltb 0 (length (trim (c :: r)))); simpl; [|discriminate].
  destruct (Nat.leb_spec (length (trim (c :: r))) 1000); simpl; [auto | discriminate].
Qed.

(** X9.  What the clients send is accepted.  In a well-formed database, for
    a conversation with the names [p0] and [p1], a text that the dashboard's
    validator accepts, sent under the identifier that
    getSenderIdFromParticipantName derives from [p0] (when [p0] matches the
    HR pattern) or from [p1] (when [p1] is a non-empty name that does not),
    is stored by createMessage, under that identifier and with the trimmed
    text. *)
Theorem client_message_accepted
  (db : Db) (key sender t p0 p1 : jstring) (c : Conversation) (now : Z) (nid : N) :
  wfDb db = true ->
  resolveConversation db key = Some c ->
  participantNames c = [p0; p1] ->
  (sender = getSenderIdFromParticipantName p0 /\ isHRName p0 = true)
  \/ (sender = getSenderIdFromParticipantName p1 /\ p1 <> [] /\ isHRName p1 = false) ->
  validateMessageDashboard t = Valid ->
  exists m db',
    createMessage db (mkBody key sender (Some t) None) now nid = (Ok m, db')
    /\ senderId m = sender /\ text m = trim t /\ conversationId m = c_id c.
Proof.
  intros Hwf Hres Hp Hs Hv.
  assert (Hval : validateSenderId sender (participantNames c) = true).
  { rewrite Hp. apply validateSenderId_pair.
    destruct Hs as [[-> H0]|[-> [Hne H1]]].
    - left. split; [exact H0 | apply derive_hr; exact H0].
    - right. split; [exact Hne | apply derive_employee; assumption]. }
  destruct (dashboard_valid_text _ Hv) as [Ht Hl].
  destruct (createMessage_accepts db (mkBody key sender (Some t) None) now nid
              (resolved_key_nonEmpty _ _ Hwf Hres) Hres Hval
              (proj2 (orb_true_iff _ _) (or_introl Ht)) Hl eq_refl) as (m & db' & H).
  exists m, db'. split; [exact H|].
  apply controller_createMessage_ok in H as (_ & _ & _ & _ & H).
  apply service_createMessage_ok in H as (c0 & Hres0 & _ & Hm & _ & _).
  simpl in Hres0. rewrite Hres in Hres0. injection Hres0 as <-.
  rewrite Hm. simpl. split; [apply (validateSenderId_trim _ _ Hval)|].
  split; [apply trim_idem | reflexivity].
Qed.

Lemma client_message_accepted_witness :
  exists m db',
    createMessage seeded
      (mkBody (lit "emp_alice_johnson") (getSenderIdFromParticipantName (lit "Alice Johnson"))
         (Some (lit " Thanks! ")) None) 100 7 = (Ok m, db')
    /\ senderId m = getSenderIdFromParticipantName (lit "Alice Johnson")
    /\ text m = trim (lit " Thanks! ") /\ conversationId m = c_id alice.
Proof.
  apply (@client_message_accepted seeded (lit "emp_alice_johnson")
           (getSenderIdFromParticipantName (lit "Alice Johnson")) (lit " Thanks! ")
           (lit "Sarah Connor (HR)") (lit "Alice Johnson") alice 100 7
           eq_refl eq_refl eq_refl).
  - right. split; [reflexivity|]. split; [discriminate | reflexivity].
  - reflexivity.
Defined.

End SenderFacts.

(** ** What createMessage stores and what it leaves alone *)
Section StoreInvariantFacts.

Import MessageController.

Lemma validAttachment_fields (a : Attachment) :
  validAttachment a = true ->
  att_url a <> [] /\ att_name a <> []
  /\ (att_type a = lit "image" \/ att_type a = lit "file").
Proof.
  unfold validAttachment. rewrite !andb_true_iff, orb_true_iff, !jeqb_eq, !nonEmpty_true.
  tauto.
Qed.

(** X10.  Every message that createMessage stores satisfies the data model:
    it belongs to a conversation that exists, its sender is one that
    validateSenderId accepts for that conversation, its text has at most 1000
    code units and is empty only if there is an attachment, every attachment
    has a [url], a [name] and the type image or file, and it carries the
    time and the [_id] given at acceptance. *)
Theorem stored_message_well_formed
  (db db' : Db) (body : Body) (now : Z) (nid : N) (m : Message) :
  createMessage db body now nid = (Ok m, db') ->
  (exists c, In c (conversations db) /\ conversationId m = c_id c
             /\ validateSenderId (senderId m) (participantNames c) = true)
  /\ length (text m) <= 1000
  /\ (text m <> [] \/ attachments m <> [])
  /\ Forall (fun a => att_url a <> [] /\ att_name a <> []
                      /\ (att_type a = lit "image" \/ att_type a = lit "file"))
       (attachments m)
  /\ timestamp m = now /\ m_id m = nid
  /\ In m (messages db').
Proof.
  intros H. pose proof (append_success_adds_one _ _ _ _ H) as Hadd.
  apply controller_createMessage_ok in H as (_ & _ & Hne & _ & H).
  apply service_createMessage_ok in H as (c & Hres & Hval & Hm & Hvalid & _).
  split; [|split; [|split; [|split; [|split; [|split]]]]].
  - exists c. split; [apply resolveConversation_member with (1 := Hres)|].
    rewrite Hm. simpl. split; [reflexivity|].
    rewrite (validateSenderId_trim _ _ Hval). exact Hval.
  - unfold validMessage in Hvalid. apply andb_true_iff in Hvalid as [Hv _].
    apply andb_true_iff in Hv as [_ Hv]. apply Nat.leb_le. exact Hv.
  - rewrite Hm. simpl. rewrite trim_idem.
    apply orb_true_iff in Hne as [Ht|Ha].
    + left. unfold hasText in Ht. destruct (b_text body) as [t|]; [|discriminate].
      apply andb_true_iff in Ht as [_ Ht]. apply Nat.ltb_lt in Ht. simpl.
      intros E. rewrite E in Ht. simpl in Ht. lia.
    + right. unfold hasAttachments in Ha. destruct (b_attachments body) as [l|];
        [|discriminate]. destruct l; [discriminate|]. simpl. discriminate.
  - unfold validMessage in Hvalid. apply andb_true_iff in Hvalid as [_ Hv].
    apply Forall_forall. intros a Ha. apply validAttachment_fields.
    rewrite forallb_forall in Hv. apply Hv. exact Ha.
  - rewrite Hm. reflexivity.
  - rewrite Hm. reflexivity.
  - rewrite Hadd. apply in_or_app. right. left. reflexivity.
Qed.

Lemma stored_message_well_formed_witness :
  (exists c, In c (conversations seeded) /\ conversationId twoFilesStored = c_id c
             /\ validateSenderId (senderId twoFilesStored) (participantNames c) = true)
  /\ length (text twoFilesStored) <= 1000
  /\ (text twoFilesStored <> [] \/ attachments twoFilesStored <> [])
  /\ Forall (fun a => att_url a <> [] /\ att_name a <> []
                      /\ (att_type a = lit "image" \/ att_type a = lit "file"))
       (attachments twoFilesStored)
  /\ timestamp twoFilesStored = 100%Z /\ m_id twoFilesStored = 7%N
  /\ In twoFilesStored (messages (snd (createMessage seeded twoFiles 100 7))).
Proof.
  apply (@stored_message_well_formed seeded (snd (createMessage seeded twoFiles 100 7))
           twoFiles 100 7 twoFilesStored eq_refl).
Defined.

Lemma insertByTimestamp_perm (m : Message) (l : list Message) :
  Permutation (insertByTimestamp m l) (m :: l).
Proof.
  induction l as [|x r IH]; simpl; [reflexivity|].
  destruct (timestamp m <=? timestamp x)%Z; [reflexivity|].
  rewrite IH. apply perm_swap.
Qed.

Lemma sortByTimestamp_perm (l : list Message) : Permutation (sortByTimestamp l) l.
Proof.
  induction l as [|m r IH]; simpl; [reflexivity|].
  rewrite insertByTimestamp_perm, IH. reflexivity.
Qed.

(** X11.  The answer to a request for the messages of a conversation: for a
    key that resolves to nothing, status 500; for a key that resolves to a
    conversation, status 200 with exactly the stored messages of that
    conversation, each as often as it is stored and none of another
    conversation, in ascending order of time stamp, and with their number as
    [count]. *)
Theorem messages_reply_exact (db : Db) (key : jstring) :
  (resolveConversation db key = None ->
   replyMessages db key = Failed 500 (lit "Failed to fetch messages"))
  /\ (forall c, resolveConversation db key = Some c ->
      exists l,
        replyMessages db key = Listed 200 l (length (findMessagesOf db (c_id c)))
        /\ Permutation l (findMessagesOf db (c_id c))
        /\ StronglySorted byTimestamp l
        /\ forall m, In m l <-> In m (messages db) /\ conversationId m = c_id c).
Proof.
  unfold replyMessages, MessageService.getMessagesByConversationId. split.
  - intros ->. reflexivity.
  - intros c ->. exists (sortByTimestamp (findMessagesOf db (c_id c))).
    rewrite sortByTimestamp_length. split; [reflexivity|].
    split; [apply sortByTimestamp_perm|]. split; [apply sortByTimestamp_sorted|].
    intros m. rewrite sortByTimestamp_In. unfold findMessagesOf.
    rewrite filter_In, jeqb_eq. reflexivity.
Qed.

Lemma messages_reply_exact_witness :
  replyMessages seeded (lit "emp_nobody") = Failed 500 (lit "Failed to fetch messages").
Proof.
  apply (proj1 (messages_reply_exact seeded (lit "emp_nobody"))). reflexivity.
Defined.

(** A document that the update does not select is found as before. *)
Lemma find_updateFirst_other (q p : Conversation -> bool) (f : Conversation -> Conversation)
  (l : list Conversation) (c : Conversation) :
  (forall x, q (f x) = q x) ->
  find q l = Some c -> p c = false ->
  find q (updateFirst p f l) = Some c.
Proof.
  intros Hq. induction l as [|x r IH]; simpl; [discriminate|].
  intros Hf Hp. destruct (p x) eqn:Epx; simpl.
  - rewrite Hq. destruct (q x); [|exact Hf]. injection Hf as ->. congruence.
  - destruct (q x); [exact Hf | apply IH; assumption].
Qed.

Lemma find_updateFirst_none (q p : Conversation -> bool) (f : Conversation -> Conversation)
  (l : list Conversation) :
  (forall x, q (f x) = q x) ->
  find q l = None -> find q (updateFirst p f l) = None.
Proof.
  intros Hq. induction l as [|x r IH]; simpl; [reflexivity|].
  destruct (q x) eqn:Eq; [discriminate|]. intros Hf.
  destruct (p x); simpl; [rewrite Hq, Eq; exact Hf | rewrite Eq; apply IH; exact Hf].
Qed.

Lemma resolveConversation_other
  (convs : list Conversation) (msgs msgs' : list Message) (id pv key : jstring) (ts : Z)
  (c : Conversation) :
  resolveConversation (mkDb convs msgs) key = Some c ->
  c_id c <> id ->
  resolveConversation (updateLastMessage (mkDb convs msgs') id pv ts) key = Some c.
Proof.
  unfold resolveConversation, findOneByEmployeeId, findById, lookupId, updateLastMessage.
  simpl. intros H Hne.
  assert (Hp : jeqb (c_id c) id && olderThan c ts = false)
    by (rewrite (proj2 (jeqb_neq _ _) Hne); reflexivity).
  destruct (find (fun x => jeqb (employeeId x) (trim key)) convs) as [c0|] eqn:E.
  - injection H as ->.
    rewrite (find_updateFirst_other (fun x => jeqb (employeeId x) (trim key))
               (fun x => jeqb (c_id x) id && olderThan x ts) (setLastMessage pv ts) convs
               (fun _ => eq_refl) E Hp). reflexivity.
  - rewrite (find_updateFirst_none (fun x => jeqb (employeeId x) (trim key))
               (fun x => jeqb (c_id x) id && olderThan x ts) (setLastMessage pv ts) convs
               (fun _ => eq_refl) E).
    destruct (looksLikeObjectId key); [|discriminate].
    apply (find_updateFirst_other (fun x => jeqb (c_id x) (toLowerCase key))
             (fun x => jeqb (c_id x) id && olderThan x ts) (setLastMessage pv ts) convs
             (fun _ => eq_refl) H Hp).
Qed.

(** X12.  A message accepted for one conversation leaves every other
    conversation alone: a key that resolved to a conversation with another
    [_id] resolves to the same, unchanged document afterwards, and lists the
    same messages. *)
Theorem append_leaves_others
  (db db' : Db) (body : Body) (now : Z) (nid : N) (m : Message)
  (key' : jstring) (c' : Conversation) :
  createMessage db body now nid = (Ok m, db') ->
  resolveConversation db key' = Some c' ->
  c_id c' <> conversationId m ->
  resolveConversation db' key' = Some c'
  /\ getMessagesByConversationId db' key' = getMessagesByConversationId db key'.
Proof.
  intros H Hres Hne.
  apply controller_createMessage_ok in H as (_ & _ & _ & _ & H).
  apply service_createMessage_ok in H as (c & _ & _ & Hm & _ & Hdb).
  assert (Hid : conversationId m = c_id c) by (rewrite Hm; reflexivity).
  rewrite Hid in Hne.
  assert (Hres' : resolveConversation db' key' = Some c').
  { rewrite Hdb. apply resolveConversation_other with (msgs := messages db); [|exact Hne].
    destruct db; exact Hres. }
  split; [exact Hres'|].
  unfold getMessagesByConversationId, MessageService.getMessagesByConversationId.
  rewrite Hres, Hres'. f_equal. f_equal. unfold findMessagesOf.
  rewrite Hdb. simpl. rewrite filter_app. simpl.
  replace (jeqb (conversationId m) (c_id c')) with false; [apply app_nil_r|].
  symmetry. apply jeqb_neq. rewrite Hid. congruence.
Qed.

Lemma append_leaves_others_witness :
  resolveConversation (snd (createMessage seeded twoFiles 100 7)) (lit "emp_bob_smith")
    = Some bob
  /\ getMessagesByConversationId (snd (createMessage seeded twoFiles 100 7)) (lit "emp_bob_smith")
     = getMessagesByConversationId seeded (lit "emp_bob_smith").
Proof.
  apply (@append_leaves_others seeded (snd (createMessage seeded twoFiles 100 7))
           twoFiles 100 7 twoFilesStored (lit "emp_bob_smith") bob eq_refl eq_refl).
  discriminate.
Defined.

End StoreInvariantFacts.

(** ** Invariants of the conversations *)
Section ConversationInvariantFacts.

Import MessageController.

Lemma updateFirst_map_key (A : Type) (k : Conversation -> A)
  (p : Conversation -> bool) (f : Conversation -> Conversation) (l : list Conversation) :
  (forall x, k (f x) = k x) -> map k (updateFirst p f l) = map k l.
Proof.
  intros Hk. induction l as [|x r IH]; simpl; [reflexivity|].
  destruct (p x); simpl; [rewrite Hk | rewrite IH]; reflexivity.
Qed.

Lemma updateFirst_forallb (q p : Conversation -> bool) (f : Conversation -> Conversation)
  (l : list Conversation) :
  (forall x, q (f x) = q x) -> forallb q (updateFirst p f l) = forallb q l.
Proof.
  intros Hq. induction l as [|x r IH]; simpl; [reflexivity|].
  destruct (p x); simpl; [rewrite Hq | rewrite IH]; reflexivity.
Qed.

Lemma updateLastMessage_wf (db : Db) (id pv : jstring) (ts : Z) :
  wfDb (updateLastMessage db id pv ts) = wfDb db.
Proof.
  unfold wfDb, updateLastMessage. simpl.
  rewrite (updateFirst_forallb wfConversation _ (setLastMessage pv ts) _ (fun _ => eq_refl)).
  rewrite (updateFirst_map_key c_id _ (setLastMessage pv ts) _ (fun _ => eq_refl)).
  rewrite (updateFirst_map_key employeeId _ (setLastMessage pv ts) _ (fun _ => eq_refl)).
  reflexivity.
Qed.

(** Every failing path of the controller returns the database it was given. *)
Lemma controller_createMessage_ok_or_err
  (db db' : Db) (body : Body) (now : Z) (nid : N) (e : AppendError) :
  createMessage db body now nid = (Err e, db') -> db' = db.
Proof.
  unfold createMessage.
  destruct (negb (nonEmpty (b_conversationId body)) || negb (nonEmpty (b_senderId body)));
    [congruence|].
  destruct (negb (hasText (b_text body)) && negb (hasAttachments (b_attachments body)));
    [congruence|].
  destruct (match b_text body with Some t => _ | None => false end); [congruence|].
  destruct (checkAttachments (orNil (b_attachments body))); [congruence|].
  apply service_createMessage_err.
Qed.

(** X13.  createMessage keeps the database well formed, whether it accepts
    the request or refuses it: the [_id]s stay ObjectIds and unique, the
    employee keys stay non-empty and unique. *)
Theorem createMessage_keeps_wf (db : Db) (body : Body) (now : Z) (nid : N) :
  wfDb db = true -> wfDb (snd (createMessage db body now nid)) = true.
Proof.
  intros Hwf. destruct (createMessage db body now nid) as [[m|e] db'] eqn:E; simpl.
  - apply controller_createMessage_ok in E as (_ & _ & _ & _ & E).
    apply service_createMessage_ok in E as (c & _ & _ & _ & _ & ->).
    rewrite updateLastMessage_wf. exact Hwf.
  - apply controller_createMessage_ok_or_err in E. subst. exact Hwf.
Qed.

Lemma createMessage_keeps_wf_witness :
  wfDb (snd (createMessage seeded twoFiles 100 7)) = true.
Proof. apply (@createMessage_keeps_wf seeded twoFiles 100 7 eq_refl). Defined.

End ConversationInvariantFacts.

(** ** The conversation metadata over many messages *)
Section ManyUpdatesFacts.

Import MessageController.

Lemma stampLe_refl (a : option Z) : stampLe a a = true.
Proof. destruct a; simpl; [apply Z.leb_refl | reflexivity]. Qed.

Lemma find_updateFirst_rel (q p : Conversation -> bool) (f : Conversation -> Conversation)
  (l : list Conversation) (c c' : Conversation) :
  (forall x, q (f x) = q x) ->
  find q l = Some c -> find q (updateFirst p f l) = Some c' ->
  c' = c \/ (p c = true /\ c' = f c).
Proof.
  intros Hq. induction l as [|x r IH]; simpl; [discriminate|].
  destruct (p x) eqn:Ep; simpl.
  - rewrite Hq. destruct (q x).
    + intros H1 H2. injection H1 as <-. injection H2 as <-. right. auto.
    + intros H1 H2. left. congruence.
  - destruct (q x); [intros H1 H2; left; congruence | exact IH].
Qed.

(** X14.  createMessage never moves a conversation backwards.  Whatever the
    request and its outcome, every conversation is still there afterwards
    under its [_id], with the same employee key and participant names, with
    a time stamp that is not earlier than before, and with a preview of at
    most 100 code units if it had one before. *)
Theorem createMessage_never_regresses
  (db : Db) (body : Body) (now : Z) (nid : N) (id : jstring) (c : Conversation) :
  lookupId db id = Some c ->
  exists c',
    lookupId (snd (createMessage db body now nid)) id = Some c'
    /\ employeeId c' = employeeId c
    /\ participantNames c' = participantNames c
    /\ stampLe (lastMessageTimestamp c) (lastMessageTimestamp c') = true
    /\ (length (lastMessage c) <= 100 -> length (lastMessage c') <= 100).
Proof.
  intros Hc. destruct (createMessage db body now nid) as [[m|e] db'] eqn:E;
    cbn [snd].
  - apply controller_createMessage_ok in E as (_ & _ & _ & _ & E).
    apply service_createMessage_ok in E as (c0 & _ & _ & _ & _ & Hdb).
    set (pv := substring0 100 _) in Hdb.
    assert (Hpv : length pv <= 100) by (apply firstn_le_length).
    clearbody pv. subst db'.
    unfold lookupId, updateLastMessage in *. cbn [conversations].
    pose proof (find_updateFirst (fun x => jeqb (c_id x) id)
                  (fun x => jeqb (c_id x) (c_id c0) && olderThan x now)
                  (setLastMessage pv now)
                  (conversations db) (fun _ => eq_refl) (fun _ => eq_refl)) as Hex.
    rewrite Hc in Hex. cbn [option_map] in Hex.
    destruct (find (fun x => jeqb (c_id x) id) (updateFirst _ _ (conversations db)))
      as [c'|] eqn:Ec'; [|discriminate Hex].
    exists c'. split; [reflexivity|].
    destruct (@find_updateFirst_rel (fun x => jeqb (c_id x) id)
                (fun x => jeqb (c_id x) (c_id c0) && olderThan x now)
                (setLastMessage pv now) (conversations db) c c'
                (fun _ => eq_refl) Hc Ec') as [->|[Hp ->]].
    + repeat split; auto. apply stampLe_refl.
    + apply andb_true_iff in Hp as [_ Hold]. cbn [setLastMessage employeeId
        participantNames lastMessageTimestamp lastMessage].
      split; [reflexivity|]. split; [reflexivity|]. split.
      * unfold olderThan in Hold. destruct (lastMessageTimestamp c); [|reflexivity].
        cbn [stampLe]. apply Z.leb_le. apply Z.ltb_lt in Hold. lia.
      * intros _. etransitivity; [apply trim_length | exact Hpv].
  - apply controller_createMessage_ok_or_err in E. subst db'.
    exists c. repeat split; auto. apply stampLe_refl.
Qed.

Lemma createMessage_never_regresses_witness :
  exists c',
    lookupId (snd (createMessage seededAt10 hiAlice 5 7)) aliceId = Some c'
    /\ employeeId c' = employeeId aliceAt10
    /\ participantNames c' = participantNames aliceAt10
    /\ stampLe (lastMessageTimestamp aliceAt10) (lastMessageTimestamp c') = true
    /\ (length (lastMessage aliceAt10) <= 100 -> length (lastMessage c') <= 100).
Proof.
  apply (@createMessage_never_regresses seededAt10 hiAlice 5 7 aliceId aliceAt10 eq_refl).
Defined.

Lemma applyUpdates_map (db : Db) (id : jstring) (updates : list (jstring * Z)) :
  NoDup (map c_id (conversations db)) ->
  applyUpdates db id updates
  = mkDb (map (updatedByAll id updates) (conversations db)) (messages db).
Proof.
  revert db. induction updates as [|u us IH]; intros db Hnd.
  - unfold applyUpdates, updatedByAll. simpl. rewrite map_id. destruct db; reflexivity.
  - unfold applyUpdates, updatedByAll in *. simpl fold_left.
    rewrite IH.
    + unfold updateLastMessage. simpl. rewrite (updateFirst_updatedBy _ _ _ _ Hnd).
      rewrite map_map. reflexivity.
    + unfold updateLastMessage. simpl. rewrite (updateFirst_updatedBy _ _ _ _ Hnd).
      rewrite map_updatedBy_ids. exact Hnd.
Qed.

Lemma updatedBy_swap (id p1 p2 : jstring) (t1 t2 : Z) (c : Conversation) :
  t1 <> t2 ->
  updatedBy id p2 t2 (updatedBy id p1 t1 c) = updatedBy id p1 t1 (updatedBy id p2 t2 c).
Proof.
  intros Hne. destruct (Z.lt_total t1 t2) as [H|[H|H]]; [|contradiction|].
  - apply updatedBy_commute. exact H.
  - symmetry. apply updatedBy_commute. exact H.
Qed.

(** With pairwise different stamps, the order of the updates does not show
    on any document. *)
Lemma updatedByAll_perm (id : jstring) (us us' : list (jstring * Z)) :
  Permutation us us' -> NoDup (map snd us) ->
  forall c, updatedByAll id us c = updatedByAll id us' c.
Proof.
  unfold updatedByAll. induction 1 as [|u l l' Hp IH|u v l|l l' l'' Hp1 IH1 Hp2 IH2];
    intros Hnd c.
  - reflexivity.
  - simpl. apply IH. inversion Hnd; assumption.
  - simpl. f_equal. apply updatedBy_swap.
    simpl in Hnd. inversion Hnd as [|? ? Hnotin _]; subst.
    intros E. apply Hnotin. left. symmetry. exact E.
  - rewrite IH1 by exact Hnd. apply IH2.
    apply Permutation_NoDup with (l := map snd l); [|exact Hnd].
    apply Permutation_map. exact Hp1.
Qed.

(** X15.  Any number of conditional updates of one conversation, with
    pairwise different time stamps, leave the same database in every order
    of arrival. *)
Theorem metadata_updates_commute
  (db : Db) (id : jstring) (updates updates' : list (jstring * Z)) :
  NoDup (map c_id (conversations db)) ->
  NoDup (map snd updates) ->
  Permutation updates updates' ->
  applyUpdates db id updates = applyUpdates db id updates'.
Proof.
  intros Hnd Hts Hp. rewrite !applyUpdates_map by exact Hnd. f_equal.
  apply map_ext. intros c. apply updatedByAll_perm; assumption.
Qed.

Lemma metadata_updates_commute_witness :
  applyUpdates seeded aliceId [(lit "one", 1%Z); (lit "two", 2%Z); (lit "three", 3%Z)]
  = applyUpdates seeded aliceId [(lit "three", 3%Z); (lit "one", 1%Z); (lit "two", 2%Z)].
Proof.
  apply (@metadata_updates_commute seeded aliceId
           [(lit "one", 1%Z); (lit "two", 2%Z); (lit "three", 3%Z)]
           [(lit "three", 3%Z); (lit "one", 1%Z); (lit "two", 2%Z)]
           (distinct_NoDup (map c_id (conversations seeded)) eq_refl)).
  - repeat constructor; simpl; intuition discriminate.
  - apply Permutation_sym. apply (Permutation_cons_app [(lit "one", 1%Z); (lit "two", 2%Z)] []).
    rewrite app_nil_r. reflexivity.
Defined.

(** Updates with stamps below [t] keep a document ready for the update
    stamped [t], or leave it alone when it is at [t] or later already. *)
Lemma updatedByAll_below (id p : jstring) (t : Z) (us : list (jstring * Z)) :
  Forall (fun u => (snd u < t)%Z) us ->
  forall c, c_id c = id ->
    updatedBy id p t (updatedByAll id us c)
    = if olderThan c t then setLastMessage p t c else c.
Proof.
  unfold updatedByAll. induction 1 as [|u us Hu Hus IH]; intros c Hid; simpl.
  - unfold updatedBy. rewrite Hid, jeqb_refl. reflexivity.
  - rewrite IH by (rewrite updatedBy_id; exact Hid).
    destruct u as [p' t']. simpl in *. subst id.
    destruct c as [cid eid en pn lm [t0|]];
      unfold updatedBy, olderThan, setLastMessage; simpl; rewrite jeqb_refl; simpl.
    + destruct (Z.ltb_spec t0 t'), (Z.ltb_spec t0 t); simpl; rewrite ?jeqb_refl; simpl;
        try lia;
        repeat match goal with
               | |- context [(?a <? ?b)%Z] => destruct (Z.ltb_spec a b); try lia
               end; simpl; rewrite ?jeqb_refl; reflexivity.
    + destruct (Z.ltb_spec t' t); [reflexivity | lia].
Qed.

Lemma updatedByAll_id (id : jstring) (us : list (jstring * Z)) (c : Conversation) :
  c_id (updatedByAll id us c) = c_id c.
Proof.
  unfold updatedByAll. revert c. induction us as [|u us IH]; intros c; simpl;
    [reflexivity|]. rewrite IH. apply updatedBy_id.
Qed.

(** The update with the latest stamp, read back through the [_id]. *)
Lemma lookupId_applyUpdates
  (db : Db) (id p : jstring) (t : Z) (updates : list (jstring * Z)) (c : Conversation) :
  NoDup (map c_id (conversations db)) ->
  lookupId db id = Some c ->
  NoDup (map snd updates) ->
  In (p, t) updates ->
  Forall (fun u => (snd u <= t)%Z) updates ->
  lookupId (applyUpdates db id updates) id
  = Some (if olderThan c t then setLastMessage p t c else c).
Proof.
  intros Hnd Hc Hts Hin Hmax.
  rewrite applyUpdates_map by exact Hnd. unfold lookupId in *. simpl.
  rewrite find_map_id by (intros; apply updatedByAll_id).
  rewrite Hc. simpl. f_equal.
  destruct (in_split _ _ Hin) as (l1 & l2 & ->).
  assert (Hperm : Permutation (l1 ++ (p, t) :: l2) ((l1 ++ l2) ++ [(p, t)])).
  { rewrite <- Permutation_middle. rewrite Permutation_cons_append. reflexivity. }
  rewrite (updatedByAll_perm id Hperm Hts).
  unfold updatedByAll at 1. rewrite fold_left_app. simpl.
  apply updatedByAll_below; [|apply find_id_some with (l := conversations db); exact Hc].
  apply Forall_forall. intros u Hu.
  assert (Hle : (snd u <= t)%Z).
  { rewrite Forall_forall in Hmax. apply Hmax. apply in_app_iff in Hu as [Hu|Hu];
      apply in_or_app; [left | right; right]; exact Hu. }
  assert (Hne : snd u <> t).
  { rewrite map_app in Hts. simpl in Hts. apply NoDup_remove_2 in Hts.
    intros E. apply Hts. rewrite <- map_app, <- E. apply in_map. exact Hu. }
  lia.
Qed.



End ManyUpdatesFacts.

(** ** deleteMessage *)
Section DeleteFacts.

Import ChatHandlers MessageController.

Lemma removeFirst_none (p : Message -> bool) (l : list Message) :
  find p l = None -> removeFirst p l = l.
Proof.
  induction l as [|x r IH]; simpl; [reflexivity|].
  destruct (p x); [discriminate|]. intros H. rewrite (IH H). reflexivity.
Qed.

Lemma removeFirst_last (p : Message -> bool) (l : list Message) (m : Message) :
  find p l = None -> p m = true -> removeFirst p (l ++ [m]) = l.
Proof.
  induction l as [|x r IH]; simpl; intros Hf Hm; [rewrite Hm; reflexivity|].
  destruct (p x); [discriminate|]. rewrite (IH Hf Hm). reflexivity.
Qed.

Lemma removeFirst_In (id : N) (l : list Message) (x : Message) :
  NoDup (map m_id l) ->
  (In x (removeFirst (fun m => N.eqb (m_id m) id) l) <-> In x l /\ m_id x <> id).
Proof.
  induction l as [|y r IH]; simpl; intros Hnd; [tauto|].
  inversion Hnd as [|? ? Hnotin Hnd']; subst.
  destruct (N.eqb_spec (m_id y) id) as [E|E].
  - split.
    + intros Hin. split; [right; exact Hin|]. intros Ex. apply Hnotin.
      rewrite E, <- Ex. apply in_map. exact Hin.
    + intros [[->|Hin] Hx]; [contradiction | exact Hin].
  - simpl. rewrite (IH Hnd'). split.
    + intros [->|[Hin Hx]]; auto.
    + intros [[->|Hin] Hx]; auto.
Qed.

(** X17.  deleteMessage answers null and changes nothing when no message has
    the [_id]; otherwise it returns the message with that [_id] and removes
    it, and only it, from the collection.  It never touches a conversation:
    the preview and the time stamp that the message has left stay. *)
Theorem deleteMessage_removes_one (db : Db) (messageId : N) :
  (findMessageById db messageId = None -> deleteMessage db messageId = (None, db))
  /\ (forall m,
      NoDup (map m_id (messages db)) ->
      findMessageById db messageId = Some m ->
      exists db',
        deleteMessage db messageId = (Some m, db')
        /\ m_id m = messageId
        /\ conversations db' = conversations db
        /\ findMessageById db' messageId = None
        /\ forall x, In x (messages db') <-> In x (messages db) /\ m_id x <> messageId).
Proof.
  unfold deleteMessage, findMessageById. split.
  - intros ->. reflexivity.
  - intros m Hnd Hf. rewrite Hf. eexists. split; [reflexivity|].
    pose proof (find_some _ _ Hf) as [_ Hid]. apply N.eqb_eq in Hid.
    split; [exact Hid|]. split; [reflexivity|]. simpl. split.
    + destruct (find (fun m0 => N.eqb (m_id m0) messageId)
                  (removeFirst (fun m0 => N.eqb (m_id m0) messageId) (messages db)))
        as [x|] eqn:E; [|reflexivity].
      apply find_some in E as [Hin Hx]. apply N.eqb_eq in Hx.
      apply (removeFirst_In messageId _ x Hnd) in Hin as [_ Hne]. contradiction.
    + intros x. apply removeFirst_In. exact Hnd.
Qed.

Lemma deleteMessage_removes_one_witness :
  deleteMessage orphaned 9 = (None, orphaned)
  /\ exists db',
       deleteMessage orphaned 1 = (Some orphan, db')
       /\ m_id orphan = 1%N
       /\ conversations db' = conversations orphaned
       /\ findMessageById db' 1 = None
       /\ forall x, In x (messages db') <-> In x (messages orphaned) /\ m_id x <> 1%N.
Proof.
  split.
  - apply (proj1 (deleteMessage_removes_one orphaned 9)). reflexivity.
  - apply (proj2 (deleteMessage_removes_one orphaned 1) orphan).
    + repeat constructor. simpl. tauto.
    + reflexivity.
Defined.

(** X18.  Deleting a message right after it was accepted gives back the
    collection of messages as it was before, but not the conversation: the
    conversation keeps the preview and the time stamp of the deleted
    message. *)
Theorem append_then_delete
  (db db' : Db) (body : Body) (now : Z) (nid : N) (m : Message) :
  findMessageById db nid = None ->
  createMessage db body now nid = (Ok m, db') ->
  fst (deleteMessage db' nid) = Some m
  /\ messages (snd (deleteMessage db' nid)) = messages db
  /\ conversations (snd (deleteMessage db' nid)) = conversations db'.
Proof.
  intros Hfresh H. pose proof (append_success_adds_one _ _ _ _ H) as Hadd.
  apply controller_createMessage_ok in H as (_ & _ & _ & _ & H).
  apply service_createMessage_ok in H as (c & _ & _ & Hm & _ & _).
  assert (Hid : N.eqb (m_id m) nid = true) by (rewrite Hm; apply N.eqb_refl).
  unfold deleteMessage, findMessageById in *. rewrite Hadd.
  rewrite (find_app_none _ _ [m] Hfresh). simpl. rewrite Hid. simpl.
  split; [reflexivity|]. split; [|reflexivity].
  apply removeFirst_last; assumption.
Qed.

Lemma append_then_delete_witness :
  fst (deleteMessage (snd (createMessage seeded hiAlice 100 7)) 7)
    = Some (newMessage 7 aliceId (lit "hr_sconnor") (lit "Hi Alice") [] 100)
  /\ messages (snd (deleteMessage (snd (createMessage seeded hiAlice 100 7)) 7))
     = messages seeded
  /\ conversations (snd (deleteMessage (snd (createMessage seeded hiAlice 100 7)) 7))
     = conversations (snd (createMessage seeded hiAlice 100 7)).
Proof.
  apply (@append_then_delete seeded (snd (createMessage seeded hiAlice 100 7)) hiAlice
           100 7 (newMessage 7 aliceId (lit "hr_sconnor") (lit "Hi Alice") [] 100)
           eq_refl eq_refl).
Defined.

(** The preview of a deleted message stays on the conversation. *)
Example deleted_message_preview_stays :
  option_map lastMessage
    (lookupId (snd (deleteMessage (snd (createMessage seeded hiAlice 100 7)) 7)) aliceId)
  = Some (lit "Hi Alice").
Proof. reflexivity. Qed.

End DeleteFacts.

(** ** The conversation service *)
Section ConversationServiceFacts.

Import MessageController.

Lemma stampLe_total (a b : option Z) : stampLe a b = false -> stampLe b a = true.
Proof.
  destruct a as [x|], b as [y|]; simpl; try discriminate; try reflexivity.
  intros H. apply Z.leb_gt in H. apply Z.leb_le. lia.
Qed.

Lemma stampLe_trans (a b c : option Z) :
  stampLe a b = true -> stampLe b c = true -> stampLe a c = true.
Proof.
  destruct a as [x|], b as [y|], c as [z|]; simpl; try discriminate; try reflexivity.
  intros H1 H2. apply Z.leb_le in H1, H2. apply Z.leb_le. lia.
Qed.

Lemma insertByActivity_In (c x : Conversation) (l : list Conversation) :
  In x (insertByActivity c l) <-> x = c \/ In x l.
Proof.
  induction l as [|y r IH]; simpl.
  - intuition congruence.
  - destruct (stampLe _ _); simpl; rewrite ?IH; intuition congruence.
Qed.

Lemma insertByActivity_perm (c : Conversation) (l : list Conversation) :
  Permutation (insertByActivity c l) (c :: l).
Proof.
  induction l as [|x r IH]; simpl; [reflexivity|].
  destruct (stampLe _ _); [reflexivity|]. rewrite IH. apply perm_swap.
Qed.

Lemma sortByActivity_perm (l : list Conversation) : Permutation (sortByActivity l) l.
Proof.
  induction l as [|c r IH]; simpl; [reflexivity|].
  rewrite insertByActivity_perm, IH. reflexivity.
Qed.

Lemma insertByActivity_sorted (c : Conversation) (l : list Conversation) :
  StronglySorted newestFirst l -> StronglySorted newestFirst (insertByActivity c l).
Proof.
  induction 1 as [|y r Hs IH Hy]; simpl.
  - constructor; constructor.
  - destruct (stampLe (lastMessageTimestamp y) (lastMessageTimestamp c)) eqn:E.
    + constructor; [constructor; assumption|].
      constructor; [exact E|].
      eapply Forall_impl; [|exact Hy]. unfold newestFirst. intros z Hz.
      apply stampLe_trans with (b := lastMessageTimestamp y); assumption.
    + constructor; [exact IH|].
      apply Forall_forall. intros z Hz. apply insertByActivity_In in Hz as [->|Hz].
      * unfold newestFirst. apply stampLe_total. exact E.
      * rewrite Forall_forall in Hy. apply Hy. exact Hz.
Qed.

Lemma sortByActivity_sorted (l : list Conversation) :
  StronglySorted newestFirst (sortByActivity l).
Proof.
  induction l as [|c r IH]; simpl; [constructor|].
  apply insertByActivity_sorted. exact IH.
Qed.

(** X19.  The list of all conversations is answered with status 200, with
    every conversation of the collection exactly once, the most recent
    activity first (a conversation without a time stamp last), and with
    their number as [count]. *)
Theorem all_conversations_reply (db : Db) :
  exists l,
    replyAllConversations db = Listed 200 l (length (conversations db))
    /\ Permutation l (conversations db)
    /\ StronglySorted newestFirst l.
Proof.
  exists (getAllConversations db). unfold replyAllConversations, getAllConversations.
  cbv zeta. rewrite (Permutation_length (sortByActivity_perm (conversations db))).
  split; [reflexivity|]. split; [apply sortByActivity_perm | apply sortByActivity_sorted].
Qed.



Lemma objectIdText_not_generated (s : jstring) :
  isObjectIdText s = true -> startsWith (lit "emp_") s = false.
Proof.
  unfold isObjectIdText. intros H. apply andb_true_iff in H as [_ H].
  destruct s as [|a [|b r]]; try reflexivity.
  - simpl. apply andb_false_r.
  - cbn [forallb] in H.
    apply andb_true_iff in H as [_ H]. apply andb_true_iff in H as [Hb _].
    change (startsWith (lit "emp_") (a :: b :: r))
      with (N.eqb 101 a && (N.eqb 109 b && startsWith (lit "p_") r)).
    destruct (N.eqb_spec 109 b) as [<-|]; [discriminate Hb|].
    simpl. apply andb_false_r.
Qed.

(** X21.  The conversation route looks a conversation up by employee key
    only.  In a well-formed database whose employee keys all carry the
    prefix [emp_], for a conversation whose employee key is stored trimmed,
    as the schema stores it, the employee key is answered with the
    conversation and status 200, the text of its [_id] with status 404,
    although the message route resolves that text to the conversation. *)
Theorem conversation_route_by_key_only (db : Db) (c : Conversation) :
  wfDb db = true ->
  forallb (fun x => startsWith (lit "emp_") (employeeId x)) (conversations db) = true ->
  In c (conversations db) ->
  trim (employeeId c) = employeeId c ->
  replyConversation db (employeeId c) = Found 200 c
  /\ replyConversation db (c_id c) = Failed 404 (lit "Conversation not found")
  /\ resolveConversation db (c_id c) = Some c.
Proof.
  intros Hwf Hemp Hin Htrim.
  assert (Hfree : findOneByEmployeeId db (c_id c) = None).
  { unfold findOneByEmployeeId.
    destruct (find _ (conversations db)) as [x|] eqn:E; [|reflexivity].
    apply find_some in E as [Hx E]. apply jeqb_eq in E.
    rewrite forallb_forall in Hemp. specialize (Hemp _ Hx). rewrite E in Hemp.
    pose proof (wfDb_member _ _ Hwf Hin) as Hc. unfold wfConversation in Hc.
    apply andb_true_iff in Hc as [Hc _]. rewrite (trim_objectIdText _ Hc) in Hemp.
    rewrite (objectIdText_not_generated _ Hc) in Hemp. discriminate. }
  destruct (resolve_both_keys db c Hwf Hin Htrim Hfree) as [_ Hi].
  unfold replyConversation, getConversationByEmployeeId. rewrite Hfree.
  split; [|split; [reflexivity | exact Hi]].
  unfold findOneByEmployeeId. rewrite Htrim.
  rewrite (find_by_employeeId_member _ _ (wfDb_employeeIds _ Hwf) Hin). reflexivity.
Qed.

Lemma conversation_route_by_key_only_witness :
  replyConversation seeded (employeeId alice) = Found 200 alice
  /\ replyConversation seeded (c_id alice) = Failed 404 (lit "Conversation not found")
  /\ resolveConversation seeded (c_id alice) = Some alice.
Proof.
  apply (@conversation_route_by_key_only seeded alice eq_refl eq_refl).
  - left. reflexivity.
  - reflexivity.
Defined.

Lemma find_updateFirst_same (p : Conversation -> bool) (f : Conversation -> Conversation)
  (l : list Conversation) (c : Conversation) :
  find p l = Some c -> p (f c) = true -> find p (updateFirst p f l) = Some (f c).
Proof.
  induction l as [|x r IH]; simpl; [discriminate|].
  destruct (p x) eqn:E; simpl.
  - intros H Hf. injection H as ->. rewrite Hf. reflexivity.
  - rewrite E. exact IH.
Qed.



(** The stamp 10 of Alice's conversation is replaced by the earlier 3. *)
Example updateConversationLastMessage_regresses :
  option_map lastMessageTimestamp
    (fst (updateConversationLastMessage seededAt10 (lit "emp_alice_johnson") (lit "Hello") 3))
  = Some (Some 3%Z).
Proof. reflexivity. Qed.

End ConversationServiceFacts.

(** ** Rooms and notifications *)
Section RoomFacts.

Import ChatHandlers MessageController.

Lemma inRoom_In (room : jstring) (rooms : list jstring) :
  inRoom room rooms = true <-> In room rooms.
Proof. apply existsb_jeqb. Qed.

Lemma inRoom_join (room : jstring) (rooms : list jstring) :
  inRoom room (join room rooms) = true.
Proof.
  unfold join. destruct (existsb (jeqb room) rooms) eqn:E; [exact E|].
  apply inRoom_In. apply in_or_app. right. left. reflexivity.
Qed.

Lemma inRoom_leave (room : jstring) (rooms : list jstring) :
  inRoom room (leave room rooms) = false.
Proof.
  destruct (inRoom room (leave room rooms)) eqn:E; [|reflexivity].
  apply inRoom_In in E. unfold leave in E. apply filter_In in E as [_ E].
  rewrite jeqb_refl in E. discriminate.
Qed.

Lemma leave_absent (room : jstring) (rooms : list jstring) :
  inRoom room rooms = false -> leave room rooms = rooms.
Proof.
  unfold leave, inRoom. induction rooms as [|r rs IH]; simpl; [reflexivity|].
  intros H. apply orb_false_iff in H as [H1 H2].
  rewrite jeqb_sym, H1. simpl. rewrite (IH H2). reflexivity.
Qed.

Lemma leave_join (room : jstring) (rooms : list jstring) :
  inRoom room rooms = false -> leave room (join room rooms) = rooms.
Proof.
  intros H. unfold join. unfold inRoom in H. rewrite H.
  unfold leave. rewrite filter_app. simpl. rewrite jeqb_refl. simpl.
  rewrite app_nil_r. apply leave_absent. exact H.
Qed.

Lemma join_idem (room : jstring) (rooms : list jstring) :
  join room (join room rooms) = join room rooms.
Proof.
  unfold join at 1. pose proof (inRoom_join room rooms) as H. unfold inRoom in H.
  rewrite H. reflexivity.
Qed.

Lemma leave_subset (room r : jstring) (rooms : list jstring) :
  In r (leave room rooms) -> In r rooms.
Proof. unfold leave. intros H. apply filter_In in H. apply H. Qed.

Lemma subscribeMessages_join (db : Db) (rejected : bool) (key : jstring)
  (rooms : list jstring) :
  subscribeMessages db rejected key rooms = join (roomFor db rejected key) rooms.
Proof.
  unfold subscribeMessages, roomFor. destruct rejected; [reflexivity|].
  destruct (resolveConversation db key); reflexivity.
Qed.

Lemma unsubscribeMessages_leave (db : Db) (rejected : bool) (key : jstring)
  (rooms : list jstring) :
  unsubscribeMessages db rejected key rooms = leave (roomFor db rejected key) rooms.
Proof.
  unfold unsubscribeMessages, roomFor. destruct rejected; [reflexivity|].
  destruct (resolveConversation db key); reflexivity.
Qed.

(** X23.  Subscribing to the messages of a conversation and unsubscribing
    with the same key, with the database unchanged in between, leaves the
    socket outside the room; if it was outside before, its rooms are exactly
    what they were.  Subscribing twice is subscribing once. *)
Theorem subscribe_then_unsubscribe
  (db : Db) (rejected : bool) (key : jstring) (rooms : list jstring) :
  inRoom (roomFor db rejected key) (subscribeMessages db rejected key rooms) = true
  /\ inRoom (roomFor db rejected key)
       (unsubscribeMessages db rejected key (subscribeMessages db rejected key rooms))
     = false
  /\ (inRoom (roomFor db rejected key) rooms = false ->
      unsubscribeMessages db rejected key (subscribeMessages db rejected key rooms) = rooms)
  /\ subscribeMessages db rejected key (subscribeMessages db rejected key rooms)
     = subscribeMessages db rejected key rooms.
Proof.
  rewrite !subscribeMessages_join, unsubscribeMessages_leave.
  split; [apply inRoom_join|]. split; [apply inRoom_leave|].
  split; [apply leave_join | apply join_idem].
Qed.

Lemma subscribe_then_unsubscribe_witness :
  unsubscribeMessages seeded false (lit "emp_alice_johnson")
    (subscribeMessages seeded false (lit "emp_alice_johnson") [lit "conversations"])
  = [lit "conversations"].
Proof.
  apply (proj1 (proj2 (proj2 (subscribe_then_unsubscribe seeded false
                                (lit "emp_alice_johnson") [lit "conversations"])))).
  reflexivity.
Defined.

(** X24.  In a well-formed database, for a conversation whose employee key
    is stored trimmed, as the schema stores it, and whose [_id] is not the
    employee key of any conversation, the employee key and the text of the
    [_id] name the same room, the one of the [_id]: a socket that subscribed
    with one can unsubscribe with the other. *)
Theorem key_and_id_same_room (db : Db) (c : Conversation) (rooms : list jstring) :
  wfDb db = true ->
  In c (conversations db) ->
  trim (employeeId c) = employeeId c ->
  findOneByEmployeeId db (c_id c) = None ->
  roomFor db false (employeeId c) = roomOf (c_id c)
  /\ roomFor db false (c_id c) = roomOf (c_id c)
  /\ subscribeMessages db false (employeeId c) rooms
     = subscribeMessages db false (c_id c) rooms
  /\ inRoom (roomOf (c_id c))
       (unsubscribeMessages db false (c_id c)
          (subscribeMessages db false (employeeId c) rooms)) = false.
Proof.
  intros Hwf Hin Htrim Hfree.
  destruct (resolve_both_keys db c Hwf Hin Htrim Hfree) as [Hk Hi].
  assert (R1 : roomFor db false (employeeId c) = roomOf (c_id c))
    by (unfold roomFor; rewrite Hk; reflexivity).
  assert (R2 : roomFor db false (c_id c) = roomOf (c_id c))
    by (unfold roomFor; rewrite Hi; reflexivity).
  split; [exact R1|]. split; [exact R2|].
  rewrite !subscribeMessages_join, unsubscribeMessages_leave, R1, R2.
  split; [reflexivity | apply inRoom_leave].
Qed.

Lemma key_and_id_same_room_witness :
  roomFor seeded false (employeeId alice) = roomOf (c_id alice)
  /\ roomFor seeded false (c_id alice) = roomOf (c_id alice)
  /\ subscribeMessages seeded false (employeeId alice) []
     = subscribeMessages seeded false (c_id alice) []
  /\ inRoom (roomOf (c_id alice))
       (unsubscribeMessages seeded false (c_id alice)
          (subscribeMessages seeded false (employeeId alice) [])) = false.
Proof.
  apply (@key_and_id_same_room seeded alice [] eq_refl (or_introl eq_refl) eq_refl eq_refl).
Defined.

(** X25.  Delivery.  When a message is accepted, its insert event sends
    'message:new' to the room that a socket has joined by subscribing, with
    the key of the request, to the messages of the conversation, and
    'conversation:updated' to the room of the sockets that subscribed to the
    conversations. *)
Theorem accepted_message_reaches_subscribers
  (db db' : Db) (body : Body) (now : Z) (nid : N) (m : Message)
  (rooms rooms' : list jstring) :
  NoDup (map c_id (conversations db)) ->
  findMessageById db nid = None ->
  createMessage db body now nid = (Ok m, db') ->
  exists c',
    lookupId db' (conversationId m) = Some c'
    /\ In (Emit (roomOf (conversationId m)) (lit "message:new") (MessagePayload m c'))
          (onMessageChange db' false (mkChange OpInsert nid))
    /\ inRoom (roomOf (conversationId m))
         (subscribeMessages db false (b_conversationId body) rooms) = true
    /\ In (Emit (lit "conversations") (lit "conversation:updated") (ConversationPayload c'))
          (onMessageChange db' false (mkChange OpInsert nid))
    /\ inRoom (lit "conversations") (subscribeConversations rooms') = true.
Proof.
  intros Hnd Hfresh H.
  destruct (@fanout_after_append db db' body now nid m Hnd Hfresh H)
    as (c & c' & Hres & Hlook & Heff).
  destruct (accepted_message_update db body now nid Hnd H) as (c0 & Hres0 & Hm & _ & _).
  rewrite Hres in Hres0. injection Hres0 as <-.
  assert (Hid : conversationId m = c_id c) by (rewrite Hm; reflexivity).
  assert (Hid' : c_id c' = c_id c)
    by (apply find_id_some with (l := conversations db'); exact Hlook).
  exists c'. rewrite Hid. split; [exact Hlook|].
  rewrite Heff, Hid'. split; [left; reflexivity|]. split.
  - rewrite subscribeMessages_join. unfold roomFor. rewrite Hres. apply inRoom_join.
  - split; [right; left; reflexivity | apply inRoom_join].
Qed.

Lemma accepted_message_reaches_subscribers_witness :
  exists c',
    lookupId (snd (createMessage seeded hiAlice 100 7))
      (conversationId (newMessage 7 aliceId (lit "hr_sconnor") (lit "Hi Alice") [] 100))
    = Some c'
    /\ In (Emit (roomOf (conversationId
                           (newMessage 7 aliceId (lit "hr_sconnor") (lit "Hi Alice") [] 100)))
             (lit "message:new")
             (MessagePayload (newMessage 7 aliceId (lit "hr_sconnor") (lit "Hi Alice") [] 100) c'))
          (onMessageChange (snd (createMessage seeded hiAlice 100 7)) false (mkChange OpInsert 7))
    /\ inRoom (roomOf (conversationId
                         (newMessage 7 aliceId (lit "hr_sconnor") (lit "Hi Alice") [] 100)))
         (subscribeMessages seeded false (b_conversationId hiAlice) []) = true
    /\ In (Emit (lit "conversations") (lit "conversation:updated") (ConversationPayload c'))
          (onMessageChange (snd (createMessage seeded hiAlice 100 7)) false (mkChange OpInsert 7))
    /\ inRoom (lit "conversations") (subscribeConversations []) = true.
Proof.
  apply (@accepted_message_reaches_subscribers seeded
           (snd (createMessage seeded hiAlice 100 7)) hiAlice 100 7
           (newMessage 7 aliceId (lit "hr_sconnor") (lit "Hi Alice") [] 100) [] []
           (distinct_NoDup (map c_id (conversations seeded)) eq_refl) eq_refl eq_refl).
Defined.

(** X26.  A socket that subscribed with a key that resolved to no
    conversation sits in the room named after the key itself.  No event of a
    message of a conversation whose [_id] differs from that key reaches it
    through this subscription, also when the conversation carries the key
    as its employee key: such a socket has to subscribe again. *)
Theorem early_subscription_misses_events
  (db db2 : Db) (key : jstring) (k : N) (m : Message) (c : Conversation) :
  resolveConversation db key = None ->
  findMessageById db2 k = Some m ->
  populate db2 m = Some c ->
  c_id c <> key ->
  subscribeMessages db false key [] = [roomOf key]
  /\ existsb (reaches (subscribeMessages db false key []))
       (onMessageChange db2 false (mkChange OpInsert k)) = false.
Proof.
  intros Hres Hm Hc Hne.
  assert (Hsub : subscribeMessages db false key [] = [roomOf key])
    by (unfold subscribeMessages; rewrite Hres; reflexivity).
  split; [exact Hsub|]. rewrite Hsub.
  unfold onMessageChange. cbn [operationType documentKey]. rewrite Hm, Hc.
  cbn [existsb reaches inRoom].
  replace (jeqb (lit "conversation:" ++ c_id c) (roomOf key)) with false.
  - reflexivity.
  - symmetry. apply jeqb_neq. unfold roomOf. intros E. apply app_inv_head in E.
    contradiction.
Qed.

Lemma early_subscription_misses_events_witness :
  subscribeMessages (mkDb [bob] []) false (lit "emp_alice_johnson") []
    = [roomOf (lit "emp_alice_johnson")]
  /\ existsb (reaches (subscribeMessages (mkDb [bob] []) false (lit "emp_alice_johnson") []))
       (onMessageChange (mkDb [alice; bob] [orphan]) false (mkChange OpInsert 1)) = false.
Proof.
  apply (@early_subscription_misses_events (mkDb [bob] []) (mkDb [alice; bob] [orphan])
           (lit "emp_alice_johnson") 1 orphan alice eq_refl eq_refl eq_refl).
  discriminate.
Defined.



End RoomFacts.

(** ** Employee identifiers and names *)
Section EmployeeNameFacts.

Variable toUpperCase1 : N -> jstring.
Hypothesis upper_letter :
  forall c, (97 <= c <= 122)%N -> toUpperCase1 c = [(c - 32)%N].
Hypothesis upper_digit :
  forall c, (48 <= c <= 57)%N -> toUpperCase1 c = [c].

Lemma idUnit_cases (c : N) :
  idUnit c = true -> (97 <= c <= 122)%N \/ (48 <= c <= 57)%N.
Proof.
  unfold idUnit. intros H. apply andb_true_iff in H as [H1 H2].
  apply isSlugUnit_cases in H1. apply negb_true_iff, N.eqb_neq in H2.
  destruct H1 as [H|[H|H]]; auto. contradiction.
Qed.

Lemma idUnits_slug (w : jstring) :
  forallb idUnit w = true -> forallb isSlugUnit w = true.
Proof.
  intros H. apply forallb_forall. intros c Hc. rewrite forallb_forall in H.
  specialize (H _ Hc). unfold idUnit in H. apply andb_true_iff in H. apply H.
Qed.

Lemma lower_of_upper (c : N) :
  idUnit c = true -> toLowerCase (toUpperCase1 c) = [c].
Proof.
  intros H. destruct (idUnit_cases _ H) as [Hc|Hc].
  - rewrite (upper_letter Hc). unfold toLowerCase. simpl. rewrite app_nil_r.
    unfold lowerUnit. settle_cmp. simpl. f_equal. lia.
  - rewrite (upper_digit Hc). unfold toLowerCase. simpl. rewrite app_nil_r.
    unfold lowerUnit. settle_cmp. reflexivity.
Qed.

Lemma upper_noWs (c : N) :
  idUnit c = true ->
  exists u, toUpperCase1 c = [u] /\ isWhiteSpace u = false.
Proof.
  intros H. destruct (idUnit_cases _ H) as [Hc|Hc].
  - rewrite (upper_letter Hc). eexists. split; [reflexivity|].
    unfold isWhiteSpace. settle_cmp. reflexivity.
  - rewrite (upper_digit Hc). eexists. split; [reflexivity|].
    unfold isWhiteSpace. settle_cmp. reflexivity.
Qed.

Lemma toLowerCase_app (a b : jstring) :
  toLowerCase (a ++ b) = toLowerCase a ++ toLowerCase b.
Proof. unfold toLowerCase. apply flat_map_app. Qed.

Lemma lower_capitalize (w : jstring) :
  forallb idUnit w = true -> toLowerCase (capitalize toUpperCase1 w) = w.
Proof.
  destruct w as [|c r]; [reflexivity|]. simpl. intros H.
  apply andb_true_iff in H as [Hc Hr].
  rewrite toLowerCase_app, (lower_of_upper _ Hc),
    (toLowerCase_slugUnits _ (idUnits_slug _ Hr)). reflexivity.
Qed.

Lemma split_word (w : jstring) :
  forallb idUnit w = true -> split 95 w = [w].
Proof.
  induction w as [|c r IH]; [reflexivity|]. intros H. simpl in H.
  apply andb_true_iff in H as [Hc Hr].
  unfold idUnit in Hc. apply andb_true_iff in Hc as [_ Hc]. apply negb_true_iff in Hc.
  cbn [split]. rewrite Hc, (IH Hr). reflexivity.
Qed.

Lemma split_word_app (w s : jstring) :
  forallb idUnit w = true -> split 95 (w ++ 95%N :: s) = w :: split 95 s.
Proof.
  induction w as [|c r IH]; intros H.
  - reflexivity.
  - simpl in H. apply andb_true_iff in H as [Hc Hr].
    unfold idUnit in Hc. apply andb_true_iff in Hc as [_ Hc]. apply negb_true_iff in Hc.
    change ((c :: r) ++ 95%N :: s) with (c :: (r ++ 95%N :: s)).
    cbn [split]. rewrite Hc, (IH Hr). reflexivity.
Qed.

Lemma split_join (ws : list jstring) :
  ws <> [] ->
  Forall (fun w => forallb idUnit w = true) ws ->
  split 95 (joinWith [95%N] ws) = ws.
Proof.
  intros Hne Hall. induction Hall as [|w ws Hw Hws IH]; [contradiction|].
  clear Hne. destruct ws as [|w' ws'].
  - apply split_word. exact Hw.
  - change (joinWith [95%N] (w :: w' :: ws'))
      with (w ++ 95%N :: joinWith [95%N] (w' :: ws')).
    rewrite (split_word_app _ _ Hw), IH by discriminate. reflexivity.
Qed.

Lemma lower_joined (ws : list jstring) :
  Forall (fun w => forallb idUnit w = true) ws ->
  toLowerCase (joinWith (lit " ") (map (capitalize toUpperCase1) ws))
  = joinWith (lit " ") ws.
Proof.
  induction 1 as [|w ws Hw Hws IH]; [reflexivity|].
  destruct ws as [|w' ws'].
  - simpl. apply lower_capitalize. exact Hw.
  - change (map (capitalize toUpperCase1) (w :: w' :: ws'))
      with (capitalize toUpperCase1 w :: map (capitalize toUpperCase1) (w' :: ws')).
    change (joinWith (lit " ") (capitalize toUpperCase1 w :: map (capitalize toUpperCase1) (w' :: ws')))
      with (capitalize toUpperCase1 w ++ lit " "
            ++ joinWith (lit " ") (map (capitalize toUpperCase1) (w' :: ws'))).
    rewrite !toLowerCase_app, IH, (lower_capitalize _ Hw). reflexivity.
Qed.

Lemma idUnit_noWs (c : N) : idUnit c = true -> isWhiteSpace c = false.
Proof.
  unfold idUnit. intros H. apply andb_true_iff in H as [H _].
  apply isSlugUnit_noWs. exact H.
Qed.

Lemma collapseWs_word (b : bool) (w s : jstring) :
  forallb idUnit w = true -> w <> [] ->
  collapseWs b (w ++ s) = w ++ collapseWs false s.
Proof.
  intros Hw Hne. revert b. induction w as [|c r IH]; [contradiction|]. intros b.
  simpl in Hw. apply andb_true_iff in Hw as [Hc Hr]. simpl.
  rewrite (idUnit_noWs _ Hc). f_equal.
  destruct r as [|c' r']; [reflexivity|]. apply IH; [exact Hr | discriminate].
Qed.

Lemma collapseWs_after_space (s : jstring) :
  match s with [] => False | c :: _ => isWhiteSpace c = false end ->
  collapseWs true s = collapseWs false s.
Proof. destruct s as [|c r]; [contradiction|]. simpl. intros ->. reflexivity. Qed.

Lemma joined_head (sep : jstring) (ws : list jstring) :
  ws <> [] ->
  Forall (fun w => isIdWord w = true) ws ->
  match joinWith sep ws with [] => False | c :: _ => isWhiteSpace c = false end.
Proof.
  intros Hne Hall. destruct Hall as [|w ws Hw _]; [contradiction|].
  unfold isIdWord in Hw. apply andb_true_iff in Hw as [Hn Hu].
  destruct w as [|c r]; [discriminate|]. simpl in Hu.
  apply andb_true_iff in Hu as [Hc _].
  destruct ws; simpl; apply idUnit_noWs; exact Hc.
Qed.

Lemma collapse_joined (ws : list jstring) :
  Forall (fun w => isIdWord w = true) ws ->
  collapseWs false (joinWith (lit " ") ws) = joinWith [95%N] ws.
Proof.
  induction 1 as [|w ws Hw Hws IH]; [reflexivity|].
  pose proof Hw as Hw'. unfold isIdWord in Hw'. apply andb_true_iff in Hw' as [Hn Hu].
  apply nonEmpty_true in Hn.
  destruct ws as [|w' ws'].
  - simpl. rewrite <- (app_nil_r w) at 1. rewrite (collapseWs_word _ _ Hu Hn).
    simpl. apply app_nil_r.
  - change (joinWith (lit " ") (w :: w' :: ws'))
      with (w ++ 32%N :: joinWith (lit " ") (w' :: ws')).
    change (joinWith [95%N] (w :: w' :: ws'))
      with (w ++ 95%N :: joinWith [95%N] (w' :: ws')).
    rewrite (collapseWs_word _ _ Hu Hn). f_equal.
    cbn [collapseWs]. change (isWhiteSpace 32) with true. cbv iota. f_equal.
    rewrite collapseWs_after_space; [exact IH|].
    apply joined_head; [discriminate | exact Hws].
Qed.

Lemma joined_units (sep : N) (ws : list jstring) :
  isSlugUnit sep = true ->
  Forall (fun w => isIdWord w = true) ws ->
  forallb isSlugUnit (joinWith [sep] ws) = true.
Proof.
  intros Hsep. induction 1 as [|w ws Hw Hws IH]; [reflexivity|].
  unfold isIdWord in Hw. apply andb_true_iff in Hw as [_ Hu].
  destruct ws as [|w' ws'].
  - simpl. apply idUnits_slug. exact Hu.
  - change (joinWith [sep] (w :: w' :: ws'))
      with (w ++ sep :: joinWith [sep] (w' :: ws')).
    rewrite forallb_app. cbn [forallb]. rewrite (idUnits_slug _ Hu), Hsep, IH. reflexivity.
Qed.

Lemma joined_last (ws : list jstring) :
  ws <> [] ->
  Forall (fun w => isIdWord w = true) ws ->
  match rev (joinWith (lit " ") ws) with
  | [] => False
  | c :: _ => isWhiteSpace c = false
  end.
Proof.
  intros Hne Hall. induction Hall as [|w ws Hw Hws IH]; [contradiction|].
  clear Hne. unfold isIdWord in Hw. apply andb_true_iff in Hw as [Hn Hu].
  destruct ws as [|w' ws'].
  - simpl. destruct w as [|c r]; [discriminate|].
    assert (Hlast : forall x, In x (rev (c :: r)) -> isWhiteSpace x = false).
    { intros x Hx. apply in_rev in Hx. apply idUnit_noWs.
      rewrite forallb_forall in Hu. apply Hu. exact Hx. }
    destruct (rev (c :: r)) as [|d q] eqn:E.
    + apply (f_equal (@length N)) in E. rewrite length_rev in E. discriminate.
    + apply Hlast. left. reflexivity.
  - change (joinWith (lit " ") (w :: w' :: ws'))
      with (w ++ 32%N :: joinWith (lit " ") (w' :: ws')).
    specialize (IH ltac:(discriminate)).
    set (J := joinWith (lit " ") (w' :: ws')) in *.
    rewrite rev_app_distr. change (rev (32%N :: J)) with (rev J ++ [32%N]).
    destruct (rev J) as [|d q]; [contradiction|]. simpl. exact IH.
Qed.

Lemma trim_fixed (s : jstring) :
  match s with [] => False | c :: _ => isWhiteSpace c = false end ->
  match rev s with [] => False | c :: _ => isWhiteSpace c = false end ->
  trim s = s.
Proof.
  intros Hh Hl. unfold trim, trimEnd.
  rewrite (trimStart_fixed s) by (destruct s; [exact I | exact Hh]).
  rewrite (trimStart_fixed (rev s)) by (destruct (rev s); [exact I | exact Hl]).
  apply rev_involutive.
Qed.

(** X28.  Round trip through the name.  For an identifier made of the
    prefix [emp_] and words of [a-z0-9] joined by single underscores,
    getEmployeeNameFromId gives a name from which generateEmployeeId
    generates the identifier again. *)
Theorem employee_id_round_trip (ws : list jstring) :
  ws <> [] ->
  Forall (fun w => isIdWord w = true) ws ->
  generateEmployeeId
    (getEmployeeNameFromId toUpperCase1 (lit "emp_" ++ joinWith [95%N] ws))
  = lit "emp_" ++ joinWith [95%N] ws.
Proof.
  intros Hne Hall.
  assert (Hu : Forall (fun w => forallb idUnit w = true) ws).
  { eapply Forall_impl; [|exact Hall]. intros w Hw. unfold isIdWord in Hw.
    apply andb_true_iff in Hw. apply Hw. }
  unfold getEmployeeNameFromId.
  change (skipn 4 (lit "emp_" ++ joinWith [95%N] ws)) with (joinWith [95%N] ws).
  change (negb (nonEmpty (lit "emp_" ++ joinWith [95%N] ws))
          || negb (startsWith (lit "emp_") (lit "emp_" ++ joinWith [95%N] ws)))
    with false.
  cbv iota. rewrite (split_join Hne Hu).
  set (name := joinWith (lit " ") (map (capitalize toUpperCase1) ws)).
  assert (Hlow : toLowerCase name = joinWith (lit " ") ws) by (apply lower_joined; exact Hu).
  assert (Hname : nonEmpty name = true).
  { rewrite <- toLowerCase_nonEmpty, Hlow.
    pose proof (joined_head (lit " ") Hne Hall) as Hh.
    destruct (joinWith (lit " ") ws); [contradiction | reflexivity]. }
  unfold generateEmployeeId. rewrite Hname. simpl negb. cbv iota. f_equal.
  unfold slug, replaceWhitespaceRuns, stripNonSlug. rewrite Hlow.
  rewrite (trim_fixed _ (joined_head (lit " ") Hne Hall) (joined_last Hne Hall)).
  rewrite (collapse_joined Hall). apply filter_all.
  apply joined_units; [reflexivity | exact Hall].
Qed.

End EmployeeNameFacts.

Section EmployeeNameExamples.

Lemma upperBasicLatin_letter (c : N) :
  (97 <= c <= 122)%N -> upperBasicLatin c = [(c - 32)%N].
Proof. intros H. unfold upperBasicLatin. settle_cmp. reflexivity. Qed.

Lemma upperBasicLatin_digit (c : N) :
  (48 <= c <= 57)%N -> upperBasicLatin c = [c].
Proof. intros H. unfold upperBasicLatin. settle_cmp. reflexivity. Qed.

Lemma employee_id_round_trip_witness :
  generateEmployeeId (getEmployeeNameFromId upperBasicLatin (lit "emp_alice_johnson"))
  = lit "emp_alice_johnson".
Proof.
  apply (@employee_id_round_trip upperBasicLatin upperBasicLatin_letter
           upperBasicLatin_digit [lit "alice"; lit "johnson"]).
  - discriminate.
  - repeat constructor.
Defined.

Example getEmployeeNameFromId_alice :
  getEmployeeNameFromId upperBasicLatin (lit "emp_alice_johnson") = lit "Alice Johnson"
  /\ getEmployeeNameFromId upperBasicLatin (lit "hr_sconnor") = [].
Proof. split; reflexivity. Qed.

(** The other way round loses what the identifier does not keep. *)
Example name_round_trip_loses_punctuation :
  getEmployeeNameFromId upperBasicLatin (generateEmployeeId (lit "Mary-Ann O'Neil"))
  = lit "Maryann Oneil".
Proof. reflexivity. Qed.

End EmployeeNameExamples.

(** ** The preview of an accepted message, once more *)
Section PreviewInvariantFacts.

Import MessageController.

Lemma trim_head (s : jstring) :
  match trim s with [] => True | c :: _ => isWhiteSpace c = false end.
Proof.
  unfold trim. pose proof (trimStart_head s) as Hh.
  destruct (trimStart s) as [|c r]; [exact I|].
  destruct (trimEnd_head c r Hh) as [r' ->]. exact Hh.
Qed.

(** The preview that createMessage builds starts with a unit that is no
    white space. *)
Lemma buildLastMessage_head (txt : jstring) (atts : list AttachmentInput) :
  trim txt <> [] \/ atts <> [] ->
  exists c r, buildLastMessage txt atts = c :: r /\ isWhiteSpace c = false.
Proof.
  intros H. unfold buildLastMessage. pose proof (trim_head txt) as Hh.
  destruct atts as [|a rest].
  - destruct H as [H|H]; [|contradiction].
    destruct (trim txt) as [|c r]; [contradiction|]. eauto.
  - clear H.
    assert (Hbase : forall glyph g,
               isWhiteSpace glyph = false ->
               exists c r,
                 (if nonEmpty (trim txt)
                  then trim txt ++ lit " " ++ (glyph :: g) ++ lit " " ++ in_name a
                  else (glyph :: g) ++ lit " " ++ in_name a) = c :: r
                 /\ isWhiteSpace c = false).
    { intros glyph g Hg. destruct (trim txt) as [|c r]; simpl; eauto. }
    assert (Happ : forall (x y : jstring),
               (exists c r, x = c :: r /\ isWhiteSpace c = false) ->
               exists c r, x ++ y = c :: r /\ isWhiteSpace c = false).
    { intros x y (c & r & -> & Hc). exists c, (r ++ y). split; [reflexivity | exact Hc]. }
    destruct (jeqb (in_type a) (lit "image"));
      destruct (Nat.ltb 1 (length (a :: rest)));
      try apply Happ; apply Hbase; reflexivity.
Qed.



End PreviewInvariantFacts.
